(** * trading-backend: subscription hub, fetch scheduler, cache and adapter

    A shallow embedding of the Node.js services of the repository
    (websocketService.js, server.js, yahooFinanceService.js, cacheService.js,
    tickerService.js, stockController.js) and the properties of the
    specification that are stated about them.

    Conventions of the embedding:
    - a JavaScript value received from a client is a [JS.value]; a
      JavaScript string is a [string], the characters of its text in a
      fixed encoding, and what depends on the encoding (the [length]
      property, upper-casing) is a parameter of the handlers that use it;
    - the own properties of a plain object used as a dictionary are an
      insertion-ordered association list ([JS.obj]), next to which the
      adapter keeps what its code needs of the prototype; a JavaScript [Set]
      is an insertion-ordered list without repetition ([JS.jsset]);
    - the Redis store is a finite map from keys to a value and its expiry
      instant, Socket.IO room membership is a finite set of room names;
    - asynchronous functions are run to completion one after the other: a
      computation reads an environment (what the outside world answers),
      threads the process state and either returns or throws;
    - the libraries the services call are outside the repository and enter
      by their documented behaviour: Socket.IO (a socket is in the room of
      its own id; [join], [leave] and [to(room).emit] act on room
      membership; a disconnected socket is dropped from every room), Redis
      through ioredis ([SET key value EX n], [GET key]), Prisma ([findMany]
      answers or rejects), yahoo-finance2 ([quote] answers or rejects), and
      jsonwebtoken ([verify], a parameter of the handshake). *)

From Stdlib Require Import ZArith List String Ascii Bool Lia.
From stdpp Require Import base gmap strings list sets.

Set Warnings "-register-all".

Open Scope string_scope.
Open Scope list_scope.
Open Scope Z_scope.

(* ===================================================================== *)
(** ** JavaScript values, strings, objects and sets *)
(* ===================================================================== *)

Module JS.

(** The values a handler can be handed.  Numbers are integers, NaN or an
    infinity; [VObj] is any other object. *)
Inductive value : Type :=
| VUndefined
| VNull
| VBool (b : bool)
| VNum (n : Z)
| VNaN
| VInf (negative : bool)
| VStr (s : string)
| VArr (items : list value)
| VObj.

(** ToBoolean. *)
Definition truthy (v : value) : bool :=
  match v with
  | VUndefined | VNull | VNaN => false
  | VBool b => b
  | VNum n => negb (n =? 0)
  | VInf _ => true
  | VStr s => negb (String.eqb s "")
  | VArr _ | VObj => true
  end.

(** [typeof v === 'string'] *)
Definition is_string (v : value) : bool :=
  match v with VStr _ => true | _ => false end.

(** [typeof v === 'number' && isFinite(v)] *)
Definition is_finite_number (v : value) : bool :=
  match v with VNum _ => true | _ => false end.

(** The upper-case form of a string of ASCII characters: on these,
    [String.prototype.toUpperCase] maps the letters a to z and leaves
    every other character alone.  Outside ASCII the function of the runtime
    does more (it maps 'é' to 'É', and 'ß' to 'SS'): the handlers that
    upper-case what a client sent take it as a parameter, and this
    definition serves where the strings are ASCII: the examples, and the
    comparison of two symbols up to the case of the letters a to z. *)
Definition upper_ascii (c : ascii) : ascii :=
  let n := nat_of_ascii c in
  if (Nat.leb 97 n && Nat.leb n 122)%bool then ascii_of_nat (n - 32) else c.

Fixpoint toUpperCase (s : string) : string :=
  match s with
  | EmptyString => EmptyString
  | String c r => String (upper_ascii c) (toUpperCase r)
  end.

(** *** Plain objects used as dictionaries

    The own properties of an object, in insertion order, which is the order
    [Object.entries] walks string keys in (a key that is an array index,
    such as "123", would come first in JavaScript; the theorems about the
    tick are stated so as not to depend on where such a key sits).  What an
    object inherits from its prototype is not part of this list: the code
    that depends on it, [fetchStockData], keeps the prototype next to the
    own properties (see [Results] there). *)
Definition obj (A : Type) : Type := list (string * A).

(** The value of the own property [k]. *)
Fixpoint obj_get {A} (o : obj A) (k : string) : option A :=
  match o with
  | [] => None
  | (k', v) :: r => if String.eqb k' k then Some v else obj_get r k
  end.

(** The own property [k] is created, or updated where it is, with the value
    [v]: what [Object.fromEntries] does for each entry, and what an
    assignment [o[k] = v] does when no setter is inherited for [k]. *)
Fixpoint obj_set {A} (o : obj A) (k : string) (v : A) : obj A :=
  match o with
  | [] => [(k, v)]
  | (k', v') :: r =>
      if String.eqb k' k then (k', v) :: r else (k', v') :: obj_set r k v
  end.

(** [Object.prototype.hasOwnProperty] applied to [o] and [k]: whether [k]
    is an own property.  Whether the call [o.hasOwnProperty(k)] reaches
    this function is a matter of the object at hand. *)
Definition hasOwnProperty {A} (o : obj A) (k : string) : bool :=
  match obj_get o k with Some _ => true | None => false end.

Definition keys {A} (o : obj A) : list string := map fst o.
Definition entries {A} (o : obj A) : list (string * A) := o.

(** [Object.fromEntries] *)
Definition fromEntries {A} (l : list (string * A)) : obj A :=
  fold_left (fun o kv => obj_set o (fst kv) (snd kv)) l [].

(** *** Sets of strings, in insertion order *)
Definition jsset : Type := list string.

Definition set_has (s : jsset) (x : string) : bool :=
  existsb (String.eqb x) s.

Definition set_add (s : jsset) (x : string) : jsset :=
  if set_has s x then s else s ++ [x].

Definition set_delete (s : jsset) (x : string) : jsset :=
  List.filter (fun y => negb (String.eqb x y)) s.

(** [new Set(iterable)] *)
Definition set_of_list (l : list string) : jsset :=
  fold_left set_add l [].

(** [Array.from(set)] *)
Definition array_from (s : jsset) : list string := s.

End JS.

Import JS.

(* ===================================================================== *)
(** ** Data model *)
(* ===================================================================== *)

(** A [Date] object whose time value is a number of milliseconds. *)
Inductive Date : Type := MkDate (ms : Z).

(** What [JSON.parse] gives back for a stringified [Date]: the ISO-8601
    string of the instant, kept here by the instant it denotes. *)
Inductive IsoString : Type := MkIso (ms : Z).

(** The object [fetchStockData] builds for one ticker.  The timestamp is a
    [Date] in a fresh quote and a string in a quote read back from the
    cache, hence the parameter. *)
Record QuoteOf (T : Type) : Type := MkQuote {
  price : value;
  change : value;
  changePercent : value;
  volume : value;
  marketState : value;
  symbol : string;
  shortName : value;
  timestamp : option T
}.
Arguments MkQuote {T}.
Arguments price {T}.
Arguments change {T}.
Arguments changePercent {T}.
Arguments volume {T}.
Arguments marketState {T}.
Arguments symbol {T}.
Arguments shortName {T}.
Arguments timestamp {T}.

Definition Quote : Type := QuoteOf Date.
Definition CachedQuote : Type := QuoteOf IsoString.

(** The raw [regularMarketTime] of an upstream quote. *)
Inductive MarketTime : Type :=
| MTDate (time_value : option Z)   (* a Date object; [None] is Invalid Date *)
| MTValue (v : value).             (* anything else, undefined included *)

(** One element of the array yahoo-finance2 resolves to. *)
Record YahooQuote : Type := MkYahooQuote {
  y_symbol : option string;        (* [None]: the field is missing *)
  y_shortName : value;
  regularMarketPrice : value;
  regularMarketChange : value;
  regularMarketChangePercent : value;
  regularMarketVolume : value;
  y_marketState : value;
  regularMarketTime : MarketTime
}.

(** The library resolves to an array or to a single object; an element can
    be null. *)
Inductive YahooResponse : Type :=
| YArray (quotes : list (option YahooQuote))
| YSingle (quote : option YahooQuote).

(** A row of [prisma.watchlist.findMany({ select: { ticker: true } })]. *)
Record WatchlistRow : Type := MkRow { ticker : string }.

(* ===================================================================== *)
(** ** Computations: environment, state, exceptions *)
(* ===================================================================== *)

(** A thrown JavaScript error, by its message. *)
Inductive exn : Type := Error (message : string).

Inductive outcome (A : Type) : Type :=
| Ret (a : A)
| Throw (e : exn).
Arguments Ret {A}.
Arguments Throw {A}.

(** Messages a socket has been sent. *)
Inductive Event : Type :=
| EvWelcome (socket_id : string) (user_id : option Z)
| EvSubscribed (tickers : list value)
| EvUnsubscribed (tickers : list value)
| EvStockUpdate (ticker : string) (data : Quote)
| EvStockUpdateNull (ticker : string).   (* the payload [{ [ticker]: null }] *)

Record Socket : Type := MkSocket {
  sid : string;
  user : option Z;                 (* [socket.user.id], when authenticated *)
  rooms : gset string;             (* Socket.IO rooms the socket is in *)
  subscribedTickers : jsset;
  outbox : list Event              (* what was emitted to this socket *)
}.

(** The Socket.IO server: its connected sockets, and the trace of the
    room-addressed emits issued on it. *)
Record Server : Type := MkServer {
  sockets : list Socket;
  emitted : list (string * Event)
}.

(** What the outside world answers during one run. *)
Record Env : Type := MkEnv {
  now : Z;                                          (* clock, in seconds *)
  db : outcome (list WatchlistRow);                 (* prisma findMany *)
  yahoo : list string -> outcome YahooResponse;     (* yahooFinance.quote *)
  redis_up : bool                                   (* the store answers *)
}.

(** The state of the process. *)
Record State : Type := MkState {
  io : option Server;                               (* module-level [io] *)
  redis : gmap string (CachedQuote * Z);            (* value, expiry *)
  yahoo_calls : list (list string)                  (* upstream requests *)
}.

Definition M (A : Type) : Type := Env -> State -> outcome A * State.

Definition ret {A} (a : A) : M A := fun _ st => (Ret a, st).

Definition bind {A B} (m : M A) (k : A -> M B) : M B :=
  fun env st =>
    match m env st with
    | (Ret a, st') => k a env st'
    | (Throw e, st') => (Throw e, st')
    end.

Definition throw {A} (e : exn) : M A := fun _ st => (Throw e, st).

(** [try { body } catch (error) { handler }] *)
Definition try_catch {A} (body : M A) (handler : exn -> M A) : M A :=
  fun env st =>
    match body env st with
    | (Ret a, st') => (Ret a, st')
    | (Throw e, st') => handler e env st'
    end.

Definition ask : M Env := fun env st => (Ret env, st).
Definition get_state : M State := fun _ st => (Ret st, st).
Definition put_state (st : State) : M unit := fun _ _ => (Ret tt, st).

Declare Scope js_scope.
Delimit Scope js_scope with js.
Notation "x <- m ;; k" := (bind m (fun x => k))
  (at level 100, m at next level, right associativity) : js_scope.
Notation "m ;;; k" := (bind m (fun _ => k))
  (at level 100, right associativity) : js_scope.
Open Scope js_scope.

(** [for (const x of l) { f(x) }] *)
Fixpoint for_each {A} (l : list A) (f : A -> M unit) : M unit :=
  match l with
  | [] => ret tt
  | x :: r => f x ;;; for_each r f
  end.

(* ===================================================================== *)
(** ** tickerService.js *)
(* ===================================================================== *)

Module TickerService.

(** [prisma.watchlist.findMany]: the database answers with rows or the
    call rejects. *)
Definition prisma_watchlist_findMany : M (list WatchlistRow) :=
  fun env st => (db env, st).

Definition getMasterTickerList : M jsset :=
  try_catch
    (distinctTickers <- prisma_watchlist_findMany ;;
     let tickerSet := set_of_list (map ticker distinctTickers) in
     ret tickerSet)
    (fun error => ret (set_of_list [])).

End TickerService.

(* ===================================================================== *)
(** ** yahooFinanceService.js *)
(* ===================================================================== *)

Module YahooFinanceService.

(** [yahooFinance.quote(tickers, queryOptions)]; each request is recorded
    in [yahoo_calls]. *)
Definition yahooFinance_quote (tickers : list string) : M YahooResponse :=
  fun env st =>
    (yahoo env tickers,
     MkState (io st) (redis st) (yahoo_calls st ++ [tickers])).

(** [new Date(ms)] is valid within 8.64e15 ms of the epoch; the result is
    the date, or [None] where the source resets the timestamp to null. *)
Definition date_of_ms (ms : Z) : option Date :=
  if Z.abs ms <=? 8640000000000000 then Some (MkDate ms) else None.

(** The timestamp handling of the processing loop. *)
Definition timestamp_of (marketTime : MarketTime) : option Date :=
  match marketTime with
  | MTDate (Some ms) => Some (MkDate ms)
  | MTDate None => None
  | MTValue v =>
      if (truthy v && is_finite_number v)%bool then
        match v with
        | VNum n => date_of_ms (n * 1000)
        | _ => None
        end
      else None
  end.

(** *** The [results] object

    [results] starts as a plain object ([{}]).  Besides its own properties
    it has a prototype, which matters for two property names:
    - an assignment to [__proto__] reaches the accessor inherited from
      [Object.prototype] and replaces the prototype, by the object or the
      null assigned, instead of creating a property; once the prototype is
      null nothing is inherited any more, and the same assignment creates an
      ordinary own property;
    - [results.hasOwnProperty] is looked up like any other property: it is
      the function of [Object.prototype] only while no own property of that
      name hides it and [Object.prototype] is still on the prototype chain.
    A prototype that was set to a quote object still inherits from
    [Object.prototype], and a quote has no field of either name: all that
    has to be kept of the prototype is whether [Object.prototype] is still
    on the chain. *)
Record Results : Type := MkResults {
  own : obj (option Quote);     (* the own properties *)
  inherits : bool               (* [Object.prototype] is on the chain *)
}.

(** [{}] *)
Definition empty_object : Results := MkResults [] true.

(** [results[k] = v], where [v] is a quote object or null. *)
Definition assign (results : Results) (k : string) (v : option Quote)
  : Results :=
  if (String.eqb k "__proto__" && inherits results
      && negb (hasOwnProperty (own results) k))%bool
  then MkResults (own results)
                 (match v with Some _ => true | None => false end)
  else MkResults (obj_set (own results) k v) (inherits results).

(** [results.hasOwnProperty(k)]: the call throws a TypeError when what is
    found under the name [hasOwnProperty] is not a function, that is, an own
    property (a quote or null), or nothing at all. *)
Definition call_hasOwnProperty (results : Results) (k : string)
  : outcome bool :=
  match obj_get (own results) "hasOwnProperty" with
  | Some _ => Throw (Error "results.hasOwnProperty is not a function")
  | None =>
      if inherits results then Ret (hasOwnProperty (own results) k)
      else Throw (Error "results.hasOwnProperty is not a function")
  end.

(** Body of [quotesArray.forEach(quote => ...)]. *)
Definition process_quote (results : Results) (quote : YahooQuote) : Results :=
  match y_symbol quote with
  | Some ticker =>
      if negb (String.eqb ticker "") then
        let timestampObj := timestamp_of (regularMarketTime quote) in
        assign results ticker
          (Some {| price := regularMarketPrice quote;
                   change := regularMarketChange quote;
                   changePercent := regularMarketChangePercent quote;
                   volume := regularMarketVolume quote;
                   marketState := y_marketState quote;
                   symbol := ticker;
                   shortName := y_shortName quote;
                   timestamp := timestampObj |})
      else results
  | None => results
  end.

(** [x.filter(q => q)] on an array whose elements are objects or null. *)
Definition filter_truthy (l : list (option YahooQuote)) : list YahooQuote :=
  omap id l.

(** Body of the final check: a requested ticker that is not an own property
    is marked null.  The callback returns, or throws with [results] as it
    is then. *)
Definition mark_missing (results : Results) (ticker : string)
  : outcome unit * Results :=
  match call_hasOwnProperty results ticker with
  | Ret true => (Ret tt, results)
  | Ret false => (Ret tt, assign results ticker None)
  | Throw e => (Throw e, results)
  end.

(** [tickers.forEach(ticker => ...)] of the final check: it stops at the
    first callback that throws. *)
Fixpoint final_check (tickers : list string) (results : Results)
  : outcome unit * Results :=
  match tickers with
  | [] => (Ret tt, results)
  | ticker :: rest =>
      match mark_missing results ticker with
      | (Ret _, results) => final_check rest results
      | (Throw e, results) => (Throw e, results)
      end
  end.

(** Body of the loop of the catch block: the ticker is marked null. *)
Definition mark_null (results : Results) (ticker : string) : Results :=
  assign results ticker None.

(** The [try] block, on the object it shares with the [catch] block: what
    it leaves in [results], and whether it completed or threw.  The
    upstream call can throw, and so can the final check. *)
Definition try_block (tickers : list string) (results : Results)
  : M (outcome unit * Results) :=
  fun env st =>
    match yahooFinance_quote tickers env st with
    | (Ret quoteResults, st') =>
        let quotesArray :=
          match quoteResults with
          | YArray l => filter_truthy l
          | YSingle q => filter_truthy [q]
          end in
        let results := fold_left process_quote quotesArray results in
        (Ret (final_check tickers results), st')
    | (Throw error, st') => (Ret (Throw error, results), st')
    end.

(** [tickers] is an array of strings at both call sites, so that of the
    input validation only the emptiness test can fire.  The callers of the
    function enumerate the own properties of what it returns
    ([Object.keys], [Object.entries]) or read the property of the one
    ticker they asked for: the own properties are what is returned here. *)
Definition fetchStockData (tickers : list string) : M (obj (option Quote)) :=
  if (length tickers =? 0)%nat then ret []
  else
    let results := empty_object in
    attempt <- try_block tickers results ;;
    let results :=
      match attempt with
      | (Ret _, results) => results
      | (Throw error, results) => fold_left mark_null tickers results
      end in
    ret (own results).

End YahooFinanceService.

(* ===================================================================== *)
(** ** cacheService.js *)
(* ===================================================================== *)

Module CacheService.

Definition CACHE_EXPIRY_SECONDS : Z := 300.

(** A JSON text, represented by the value [JSON.parse] reads from it. *)
Inductive json_text : Type := JsonText (parsed : CachedQuote).

(** What a field becomes through [JSON.stringify] and [JSON.parse]: NaN and
    the infinities are written as null (undefined too, inside an array); an
    undefined property is left out and reads as undefined again. *)
Fixpoint json_value (v : value) : value :=
  match v with
  | VNaN | VInf _ => VNull
  | VArr l =>
      VArr (map (fun x => match json_value x with
                          | VUndefined => VNull
                          | y => y
                          end) l)
  | _ => v
  end.

(** [Date.prototype.toJSON] *)
Definition json_date (d : Date) : IsoString :=
  match d with MkDate ms => MkIso ms end.

Definition JSON_stringify (data : Quote) : json_text :=
  JsonText {| price := json_value (price data);
              change := json_value (change data);
              changePercent := json_value (changePercent data);
              volume := json_value (volume data);
              marketState := json_value (marketState data);
              symbol := symbol data;
              shortName := json_value (shortName data);
              timestamp := option_map json_date (timestamp data) |}.

Definition JSON_parse (text : json_text) : CachedQuote :=
  match text with JsonText q => q end.

Definition cache_key (ticker : string) : string := "stock:" +:+ ticker.

(** [SET key value EX seconds], as queued on a pipeline. *)
Record SetCommand : Type := MkSet {
  cmd_key : string;
  cmd_value : json_text;
  cmd_ex : Z
}.

(** The store keeps the value with the instant at which it expires. *)
Definition redis_set (t : Z) (store : gmap string (CachedQuote * Z))
    (c : SetCommand) : gmap string (CachedQuote * Z) :=
  <[cmd_key c := (JSON_parse (cmd_value c), t + cmd_ex c)]> store.

(** [pipeline.exec()]: all queued commands are applied, or the call
    rejects when the store does not answer. *)
Definition pipeline_exec (pipeline : list SetCommand) : M unit :=
  fun env st =>
    if redis_up env then
      (Ret tt,
       MkState (io st) (fold_left (redis_set (now env)) pipeline (redis st))
               (yahoo_calls st))
    else (Throw (Error "Connection is closed."), st).

(** [redisClient.get(key)]: the value of a key that has not expired yet,
    or null; the call rejects when the store does not answer.  The store
    is the Redis server, outside the repository: an entry set at instant
    [t] with [EX n] is taken to be readable strictly before [t + n]. *)
Definition redis_get (key : string) : M (option json_text) :=
  fun env st =>
    if redis_up env then
      (Ret match redis st !! key with
           | Some (v, expiry) =>
               if now env <? expiry then Some (JsonText v) else None
           | None => None
           end,
       st)
    else (Throw (Error "Connection is closed."), st).

(** Body of the loop over [Object.entries(stockData)]. *)
Definition queue_entry (acc : list SetCommand * nat)
    (entry : string * option Quote) : list SetCommand * nat :=
  let '(pipeline, cachedCount) := acc in
  let '(ticker, data) := entry in
  match data with
  | Some d =>
      let key := cache_key ticker in
      (pipeline ++ [MkSet key (JSON_stringify d) CACHE_EXPIRY_SECONDS],
       S cachedCount)
  | None => (pipeline, cachedCount)
  end.

Definition cacheStockUpdates (stockData : obj (option Quote)) : M unit :=
  if (length (keys stockData) =? 0)%nat then ret tt
  else
    let '(pipeline, cachedCount) :=
      fold_left queue_entry (entries stockData) ([], 0%nat) in
    if (0 <? cachedCount)%nat then
      try_catch (pipeline_exec pipeline) (fun error => ret tt)
    else ret tt.

Definition getCachedStockData (ticker : string) : M (option CachedQuote) :=
  let key := cache_key ticker in
  try_catch
    (data <- redis_get key ;;
     ret match data with
         | Some text => Some (JSON_parse text)
         | None => None
         end)
    (fun error => ret None).

End CacheService.

(* ===================================================================== *)
(** ** websocketService.js *)
(* ===================================================================== *)

Module WebsocketService.

(** [`stock_${ticker}`] *)
Definition roomName (ticker : string) : string := "stock_" +:+ ticker.

(** [socket.emit(event, payload)] *)
Definition emit (socket : Socket) (ev : Event) : Socket :=
  MkSocket (sid socket) (user socket) (rooms socket)
           (subscribedTickers socket) (outbox socket ++ [ev]).

(** [socket.join(room)] *)
Definition join (socket : Socket) (room : string) : Socket :=
  MkSocket (sid socket) (user socket) ({[room]} ∪ rooms socket)
           (subscribedTickers socket) (outbox socket).

(** [socket.leave(room)] *)
Definition leave (socket : Socket) (room : string) : Socket :=
  MkSocket (sid socket) (user socket) (rooms socket ∖ {[room]})
           (subscribedTickers socket) (outbox socket).

Definition track (socket : Socket) (f : jsset -> jsset) : Socket :=
  MkSocket (sid socket) (user socket) (rooms socket)
           (f (subscribedTickers socket)) (outbox socket).

(** [Array.isArray(tickers) ? tickers : [tickers].filter(t => t)] *)
Definition ensure_array (tickers : value) : list value :=
  match tickers with
  | VArr l => l
  | _ => List.filter truthy [tickers]
  end.

(** Body of [tickersToJoin.forEach(ticker => ...)]. *)
Definition subscribe_one (socket : Socket) (ticker : value) : Socket :=
  if (truthy ticker && is_string ticker)%bool then
    match ticker with
    | VStr t =>
        let socket := join socket (roomName t) in
        track socket (fun s => set_add s t)
    | _ => socket
    end
  else socket.

Definition handleSubscription (socket : Socket) (tickers : value) : Socket :=
  let tickersToJoin := ensure_array tickers in
  if (length tickersToJoin =? 0)%nat then socket
  else
    let socket := fold_left subscribe_one tickersToJoin socket in
    emit socket (EvSubscribed tickersToJoin).

(** Body of [tickersToLeave.forEach(ticker => ...)]. *)
Definition unsubscribe_one (socket : Socket) (ticker : value) : Socket :=
  if (truthy ticker && is_string ticker)%bool then
    match ticker with
    | VStr t =>
        let socket := leave socket (roomName t) in
        track socket (fun s => set_delete s t)
    | _ => socket
    end
  else socket.

Definition handleUnsubscription (socket : Socket) (tickers : value) : Socket :=
  let tickersToLeave := ensure_array tickers in
  if (length tickersToLeave =? 0)%nat then socket
  else
    let socket := fold_left unsubscribe_one tickersToLeave socket in
    emit socket (EvUnsubscribed tickersToLeave).

(** *** The handshake *)

Inductive JwtErrorName : Type :=
| TokenExpiredError
| JsonWebTokenError
| NotBeforeError.

(** What [jwt.verify] hands to its callback: an error with a name and a
    message, or the decoded payload with its [userId]. *)
Inductive VerifyResult : Type :=
| VerifyErr (name : JwtErrorName) (message : string)
| VerifyOk (userId : Z).

(** What the middleware does with its [next]. *)
Inductive MiddlewareResult : Type :=
| NextError (e : exn)              (* [next(new Error(...))]: refused *)
| Next (socket_user : option Z).   (* [next()]: the connection proceeds *)

(** Outcome of a connection attempt, as the client sees it. *)
Inductive Handshake : Type :=
| Refused (e : exn)
| Connected (socket_id : string).

Section Handshake.

(** jsonwebtoken's [verify], on the token received and the secret. *)
Variable jwt_verify : value -> string -> VerifyResult.

(** [process.env.JWT_SECRET]; [None] when the variable is not set. *)
Variable JWT_SECRET : option string.

(** [!JWT_SECRET] *)
Definition secret_missing : bool :=
  match JWT_SECRET with
  | Some s => String.eqb s ""
  | None => true
  end.

(** The [io.use] middleware; [token] is [socket.handshake.auth?.token]. *)
Definition auth_middleware (token : value) : MiddlewareResult :=
  match JWT_SECRET with
  | Some secret =>
      if String.eqb secret "" then Next None
      else if negb (truthy token) then
        NextError (Error "Authentication error: No token provided")
      else
        match jwt_verify token secret with
        | VerifyErr _ message =>
            NextError
              (Error ("Authentication error: " +:+
                      (if String.eqb message "" then "Invalid token"
                       else message)))
        | VerifyOk userId => Next (Some userId)
        end
  | None => Next None
  end.

(** [socket.user?.id || ''] of the welcome message. *)
Definition welcome_user (u : option Z) : option Z :=
  match u with
  | Some id => if id =? 0 then None else Some id
  | None => None
  end.

(** The ['connection'] handler: a fresh subscription set, then the
    welcome message.  A new socket is in the room named by its id. *)
Definition on_connection (socket_id : string) (u : option Z) : Socket :=
  let socket := MkSocket socket_id u {[socket_id]} [] [] in
  emit socket (EvWelcome socket_id (welcome_user u)).

(** A connection attempt: the middleware runs first, and the
    ['connection'] event fires only when it called [next()] without an
    error. *)
Definition connect (socket_id : string) (token : value) (srv : Server)
  : Handshake * Server :=
  match auth_middleware token with
  | NextError e => (Refused e, srv)
  | Next u =>
      (Connected socket_id,
       MkServer (sockets srv ++ [on_connection socket_id u])
                (emitted srv))
  end.

End Handshake.

(** *** Events of a connected socket, at the level of the server *)

Definition update_socket (socket_id : string) (f : Socket -> Socket)
    (srv : Server) : Server :=
  MkServer
    (map (fun s => if String.eqb (sid s) socket_id then f s else s)
         (sockets srv))
    (emitted srv).

Definition on_subscribe (socket_id : string) (tickers : value) :=
  update_socket socket_id (fun s => handleSubscription s tickers).

Definition on_unsubscribe (socket_id : string) (tickers : value) :=
  update_socket socket_id (fun s => handleUnsubscription s tickers).

(** [handleDisconnection] only logs; Socket.IO drops the socket, and with
    it its room memberships. *)
Definition on_disconnect (socket_id : string) (srv : Server) : Server :=
  MkServer
    (List.filter (fun s => negb (String.eqb (sid s) socket_id)) (sockets srv))
    (emitted srv).

(** [io.to(room).emit('stock_update', payload)]: every socket in the room
    is sent the event. *)
Definition to_room_emit (room : string) (ev : Event) (srv : Server) : Server :=
  MkServer
    (map (fun s => if bool_decide (room ∈ rooms s) then emit s ev else s)
         (sockets srv))
    (emitted srv ++ [(room, ev)]).

Definition broadcastStockUpdate (ticker : string) (data : Quote) : M unit :=
  fun env st =>
    match io st with
    | None => (Ret tt, st)
    | Some srv =>
        if negb (truthy (VStr ticker)) then (Ret tt, st)
        else
          let roomName := roomName ticker in
          (Ret tt,
           MkState
             (Some (to_room_emit roomName (EvStockUpdate ticker data) srv))
             (redis st) (yahoo_calls st))
    end.

(** The same function called with a null [data]: nothing in it looks at
    [data], and the payload is [{ [ticker]: null }]. *)
Definition broadcastStockUpdate_null (ticker : string) : M unit :=
  fun env st =>
    match io st with
    | None => (Ret tt, st)
    | Some srv =>
        if negb (truthy (VStr ticker)) then (Ret tt, st)
        else
          let roomName := roomName ticker in
          (Ret tt,
           MkState
             (Some (to_room_emit roomName (EvStockUpdateNull ticker) srv))
             (redis st) (yahoo_calls st))
    end.

End WebsocketService.

(* ===================================================================== *)
(** ** server.js: the periodic fetch *)
(* ===================================================================== *)

Module Scheduler.

Import TickerService YahooFinanceService CacheService WebsocketService.

(** [([_, data]) => data !== null] *)
Definition not_null (entry : string * option Quote) : bool :=
  match snd entry with Some _ => true | None => false end.

(** Body of [for (const [ticker, data] of validUpdates)]: the call
    [broadcastStockUpdate(ticker, data)], made for every entry of the list,
    whatever its [data].  The loop has no test of its own: that no null is
    published rests on the filter that built [validUpdates]. *)
Definition broadcast_entry (entry : string * option Quote) : M unit :=
  match snd entry with
  | Some data => broadcastStockUpdate (fst entry) data
  | None => broadcastStockUpdate_null (fst entry)
  end.

Definition runPeriodicFetch : M unit :=
  tickerSet <- getMasterTickerList ;;
  let tickersToFetch := array_from tickerSet in
  if (length tickersToFetch =? 0)%nat then ret tt
  else
    try_catch
      (results <- fetchStockData tickersToFetch ;;
       if (0 <? length (keys results))%nat then
         let validUpdates := List.filter not_null (entries results) in
         if (0 <? length validUpdates)%nat then
           let dataToCache := fromEntries validUpdates in
           cacheStockUpdates dataToCache ;;;
           for_each validUpdates broadcast_entry
         else ret tt
       else ret tt)
      (fun error => ret tt).

End Scheduler.

(* ===================================================================== *)
(** ** stockController.js *)
(* ===================================================================== *)

Module StockController.

Import YahooFinanceService CacheService.

Inductive Body : Type :=
| JsonCached (ticker : string) (data : CachedQuote)
| JsonFresh (ticker : string) (data : Quote)
| JsonError (error : string).

Record Response : Type := MkResponse { status : Z; body : Body }.

Section Strings.

(** What the handlers ask of a string a client sent: its upper-case form
    ([String.prototype.toUpperCase]) and its [length], a number of UTF-16
    code units.  Both belong to the runtime and depend on how the text is
    encoded; they are parameters of the handlers. *)
Variable toUpperCase : string -> string.
Variable str_length : string -> nat.

(** The filter and map of [addToWatchlist] and [removeFromWatchlist]. *)
Definition valid_ticker (t : value) : option string :=
  match t with
  | VStr s =>
      if ((0 <? str_length s) && (str_length s <? 20))%nat%bool
      then Some (toUpperCase s) else None
  | _ => None
  end.

Definition validTickers (tickers : list value) : list string :=
  omap valid_ticker tickers.

(** [param] is [req.params.ticker].  [results[ticker]] reads the own
    property [fetchStockData] left for the one ticker asked for: where that
    ticker is not an own property of [results] (it is then [__proto__])
    the prototype has been set to null, and the read gives undefined. *)
Definition searchStock (param : option string) : M Response :=
  let ticker := option_map toUpperCase param in
  match ticker with
  | None => ret (MkResponse 400 (JsonError "Invalid ticker symbol"))
  | Some ticker =>
      if (String.eqb ticker "" || (20 <? str_length ticker)%nat)%bool then
        ret (MkResponse 400 (JsonError "Invalid ticker symbol"))
      else
        try_catch
          (stockData <- getCachedStockData ticker ;;
           match stockData with
           | Some data => ret (MkResponse 200 (JsonCached ticker data))
           | None =>
               results <- fetchStockData [ticker] ;;
               match obj_get results ticker with
               | Some (Some data) =>
                   ret (MkResponse 200 (JsonFresh ticker data))
               | _ =>
                   ret (MkResponse 404
                          (JsonError ("Data not found for ticker: " +:+ ticker)))
               end
           end)
          (fun error =>
             ret (MkResponse 500 (JsonError "Failed to search stock data")))
  end.

End Strings.

End StockController.

(* ===================================================================== *)
(** ** stockController.js: the watchlist handlers *)
(* ===================================================================== *)

Module WatchlistController.

Import StockController.

(** What a Prisma call rejects with. *)
Inductive PrismaError : Type :=
| KnownRequestError (code : string)   (* PrismaClientKnownRequestError *)
| OtherPrismaError (message : string).

(** The requests the handlers make to the database. *)
Inductive DbCall : Type :=
| FindMany (userId : Z)
    (* where userId, select ticker, orderBy ticker asc *)
| CreateMany (data : list (Z * string))
    (* rows (userId, ticker), skipDuplicates: true *)
| DeleteMany (userId : Z) (tickers : list string).
    (* where userId and ticker in tickers *)

(** The database as the handlers see it: what it answers to each request
    (rows, or the [count] of the result), or the error it rejects with. *)
Record Database : Type := MkDatabase {
  findMany : Z -> PrismaError + list WatchlistRow;
  createMany : list (Z * string) -> PrismaError + Z;
  deleteMany : Z -> list string -> PrismaError + Z
}.

Inductive Payload : Type :=
| JsonTickers (tickers : list string)
| JsonAdded (addedCount : Z) (requestedTickers : list string)
| JsonRemoved (removedCount : Z) (requestedTickers : list string)
| JsonUserNotFound (userId : Z)   (* [`User with ID ${userId} not found.`] *)
| JsonFailure (error : string).

Record Reply : Type := MkReply { code : Z; payload : Payload }.

(** [req.user?.id], kept when it is truthy. *)
Definition user_id (req_user : option Z) : option Z :=
  match req_user with
  | Some id => if id =? 0 then None else Some id
  | None => None
  end.

(** Each handler gives its reply and the requests it made to the database,
    in order. *)
Definition getWatchlist (dbs : Database) (req_user : option Z)
  : Reply * list DbCall :=
  match user_id req_user with
  | None => (MkReply 401 (JsonFailure "User not authenticated"), [])
  | Some userId =>
      match findMany dbs userId with
      | inr watchlistItems =>
          (MkReply 200 (JsonTickers (map ticker watchlistItems)),
           [FindMany userId])
      | inl error =>
          (MkReply 500 (JsonFailure "Failed to retrieve watchlist"),
           [FindMany userId])
      end
  end.

Section Strings.

(** The upper-casing and the [length] of the runtime, as in
    [StockController]. *)
Variable toUpperCase : string -> string.
Variable str_length : string -> nat.

(** [tickers] is [req.body.tickers]; the test
    [!tickers || !Array.isArray(tickers) || tickers.length === 0] lets
    through the arrays that are not empty. *)
Definition addToWatchlist (dbs : Database) (req_user : option Z)
    (tickers : value) : Reply * list DbCall :=
  match user_id req_user with
  | None => (MkReply 401 (JsonFailure "User not authenticated"), [])
  | Some userId =>
      match tickers with
      | VArr (first :: others) =>
          let validTickers :=
            validTickers toUpperCase str_length (first :: others) in
          if (length validTickers =? 0)%nat then
            (MkReply 400 (JsonFailure "No valid tickers provided"), [])
          else
            let dataToCreate := map (fun ticker => (userId, ticker)) validTickers in
            match createMany dbs dataToCreate with
            | inr count =>
                (MkReply 201 (JsonAdded count validTickers),
                 [CreateMany dataToCreate])
            | inl (KnownRequestError error_code) =>
                if String.eqb error_code "P2003" then
                  (MkReply 404 (JsonUserNotFound userId),
                   [CreateMany dataToCreate])
                else
                  (MkReply 500 (JsonFailure "Failed to update watchlist"),
                   [CreateMany dataToCreate])
            | inl (OtherPrismaError _) =>
                (MkReply 500 (JsonFailure "Failed to update watchlist"),
                 [CreateMany dataToCreate])
            end
      | _ =>
          (MkReply 400
             (JsonFailure "Invalid or missing tickers array in request body"),
           [])
      end
  end.

Definition removeFromWatchlist (dbs : Database) (req_user : option Z)
    (tickers : value) : Reply * list DbCall :=
  match user_id req_user with
  | None => (MkReply 401 (JsonFailure "User not authenticated"), [])
  | Some userId =>
      match tickers with
      | VArr (first :: others) =>
          let validTickers :=
            validTickers toUpperCase str_length (first :: others) in
          if (length validTickers =? 0)%nat then
            (MkReply 400 (JsonFailure "No valid tickers provided"), [])
          else
            match deleteMany dbs userId validTickers with
            | inr count =>
                (MkReply 200 (JsonRemoved count validTickers),
                 [DeleteMany userId validTickers])
            | inl error =>
                (MkReply 500 (JsonFailure "Failed to update watchlist"),
                 [DeleteMany userId validTickers])
            end
      | _ =>
          (MkReply 400
             (JsonFailure "Invalid or missing tickers array in request body"),
           [])
      end
  end.

End Strings.

End WatchlistController.

(* ===================================================================== *)
(** ** authMiddleware.js and the protected routes of routes/index.js *)
(* ===================================================================== *)

Module AuthMiddleware.

Import WebsocketService StockController WatchlistController.

(** [s.split(sep)] for a separator of one character. *)
Fixpoint split_on (sep : ascii) (s : string) : list string :=
  match s with
  | EmptyString => [EmptyString]
  | String c r =>
      if Ascii.eqb c sep then EmptyString :: split_on sep r
      else
        match split_on sep r with
        | h :: t => String c h :: t
        | [] => [String c EmptyString]
        end
  end.

(** What the synchronous [jwt.verify] throws: an error of jsonwebtoken
    (TokenExpiredError and NotBeforeError are JsonWebTokenErrors too), or
    anything else. *)
Inductive Thrown : Type :=
| ThrownJwt (name : JwtErrorName) (message : string)
| ThrownOther (message : string).

(** What the middleware does: it calls [next()], with [req.user.id] set, or
    it answers itself. *)
Inductive Decision : Type :=
| NextHandler (req_user_id : Z)
| Answer (status : Z) (error : string).

Section Middleware.

(** jsonwebtoken's [verify], on the token and the secret: the [userId] of
    the decoded payload, or what it throws. *)
Variable jwt_verify : string -> string -> Thrown + Z.

(** [process.env.JWT_SECRET]; [None] when the variable is not set. *)
Variable JWT_SECRET : option string.

(** The upper-casing and the [length] of the runtime, which the handlers
    behind the middleware use. *)
Variable toUpperCase : string -> string.
Variable str_length : string -> nat.

(** [authHeader && authHeader.startsWith('Bearer ')
      ? authHeader.split(' ')[1] : null] *)
Definition bearer_token (authHeader : option string) : option string :=
  match authHeader with
  | Some h =>
      if (negb (String.eqb h "") && String.prefix "Bearer " h)%bool
      then nth_error (split_on " "%char h) 1
      else None
  | None => None
  end.

(** [authHeader] is [req.headers['authorization']]. *)
Definition authMiddleware (authHeader : option string) : Decision :=
  let token := bearer_token authHeader in
  match token with
  | None => Answer 401 "Unauthorized: No token provided"
  | Some token =>
      if String.eqb token "" then Answer 401 "Unauthorized: No token provided"
      else
        match JWT_SECRET with
        | None => Answer 500 "Server configuration error"
        | Some secret =>
            if String.eqb secret "" then Answer 500 "Server configuration error"
            else
              match jwt_verify token secret with
              | inr userId => NextHandler userId
              | inl (ThrownJwt TokenExpiredError _) =>
                  Answer 401 "Unauthorized: Token expired"
              | inl (ThrownJwt _ _) =>
                  Answer 401 "Unauthorized: Invalid token"
              | inl (ThrownOther _) =>
                  Answer 500 "Internal server error during authentication"
              end
        end
  end.

(** [router.use('/stocks', authMiddleware, stockApiRoutes)]: the handlers
    of the stock routes run only after the middleware called [next()]. *)
Definition protected_search (authHeader : option string)
    (param : option string) : M Response :=
  match authMiddleware authHeader with
  | NextHandler _ => searchStock toUpperCase str_length param
  | Answer status error => ret (MkResponse status (JsonError error))
  end.

Definition protected_add (dbs : Database) (authHeader : option string)
    (tickers : value) : Reply * list DbCall :=
  match authMiddleware authHeader with
  | NextHandler userId =>
      addToWatchlist toUpperCase str_length dbs (Some userId) tickers
  | Answer status error => (MkReply status (JsonFailure error), [])
  end.

Definition protected_remove (dbs : Database) (authHeader : option string)
    (tickers : value) : Reply * list DbCall :=
  match authMiddleware authHeader with
  | NextHandler userId =>
      removeFromWatchlist toUpperCase str_length dbs (Some userId) tickers
  | Answer status error => (MkReply status (JsonFailure error), [])
  end.

End Middleware.

End AuthMiddleware.

(* ===================================================================== *)
(** ** Vocabulary of the statements, and the running example *)
(* ===================================================================== *)

Import TickerService YahooFinanceService CacheService WebsocketService.
Import Scheduler StockController.
Import WatchlistController AuthMiddleware.

(** An entry of a subscribe request that the handler skips: not a string,
    or the empty string. *)
Definition malformed (v : value) : bool :=
  negb (truthy v && is_string v).




(** A connection used in the examples: socket [sock1] of user 7, right after
    its handshake. *)
Definition sample_socket : Socket := on_connection "sock1" (Some 7).

(** The states a connected socket goes through. *)
Inductive reachable : Socket -> Prop :=
| reach_connection (socket_id : string) (u : option Z) :
    reachable (on_connection socket_id u)
| reach_subscribe (s : Socket) (tickers : value) :
    reachable s -> reachable (handleSubscription s tickers)
| reach_unsubscribe (s : Socket) (tickers : value) :
    reachable s -> reachable (handleUnsubscription s tickers)
| reach_emit (s : Socket) (ev : Event) :
    reachable s -> reachable (emit s ev).

(** Every tracked ticker is a non-empty string whose room the socket is in. *)
Definition tracked_in_room (s : Socket) : Prop :=
  forall t, In t (subscribedTickers s) -> t <> "" /\ roomName t ∈ rooms s.

(** A verifier for the examples: it knows one good and one expired token. *)
Definition sample_verify (token : value) (secret : string) : VerifyResult :=
  match token with
  | VStr "good-token" => VerifyOk 7
  | VStr "old-token" => VerifyErr TokenExpiredError "jwt expired"
  | VStr _ => VerifyErr JsonWebTokenError "jwt malformed"
  | _ => VerifyErr JsonWebTokenError "jwt must be a string"
  end.

(** The state after the upstream was asked for [tickers]. *)
Definition asked (st : State) (tickers : list string) : State :=
  MkState (io st) (redis st) (yahoo_calls st ++ [tickers]).

(** The quotes an upstream answer holds. *)
Definition quotes_of (resp : YahooResponse) : list YahooQuote :=
  match resp with
  | YArray l => filter_truthy l
  | YSingle q => filter_truthy [q]
  end.

(** The [results] object of [fetchStockData] at its [return], from what
    the upstream did. *)
Definition results_of (tickers : list string) (o : outcome YahooResponse)
  : Results :=
  match o with
  | Ret resp =>
      match final_check tickers
              (fold_left process_quote (quotes_of resp) empty_object) with
      | (Ret _, results) => results
      | (Throw _, results) => fold_left mark_null tickers results
      end
  | Throw _ => fold_left mark_null tickers empty_object
  end.

(** The mapping built from what the upstream did. *)
Definition mapping_of (tickers : list string) (o : outcome YahooResponse)
  : obj (option Quote) :=
  own (results_of tickers o).

(** The two property names that [results], a plain object, does not treat
    as ordinary keys. *)
Definition reserved (k : string) : bool :=
  (String.eqb k "__proto__" || String.eqb k "hasOwnProperty")%bool.

(** A request and an upstream answer in which no symbol is one of the two
    names. *)
Definition ordinary_symbols (tickers : list string) (resp : YahooResponse)
  : Prop :=
  (forall t, In t tickers -> reserved t = false)
  /\ (forall y s, In y (quotes_of resp) -> y_symbol y = Some s ->
                  reserved s = false).

(** The upstream quote of the examples. *)
Definition sample_yahoo_quote : YahooQuote :=
  MkYahooQuote (Some "AAPL") (VStr "Apple Inc.") (VNum 150) (VNum 1) (VNum 2)
               (VNum 1000000) (VStr "REGULAR") (MTDate (Some 1714150000000)).

(** An environment for the examples: the clock reads 1000 s, the watchlists
    hold AAPL and MSFT, the upstream knows AAPL only, the store answers. *)
Definition sample_env : Env :=
  MkEnv 1000 (Ret [MkRow "AAPL"; MkRow "MSFT"])
        (fun _ => Ret (YArray [Some sample_yahoo_quote])) true.

(** The same, with the upstream call failing. *)
Definition sample_env_upstream_down : Env :=
  MkEnv 1000 (Ret [MkRow "AAPL"; MkRow "MSFT"])
        (fun _ => Throw (Error "fetch failed")) true.

(** A state for the examples: one connected socket, an empty store. *)
Definition sample_state : State :=
  MkState (Some (MkServer [sample_socket] [])) ∅ [].

(** Every quote of the mapping sits under a non-empty key. *)
Definition quotes_keyed (r : obj (option Quote)) : Prop :=
  forall k q, In (k, Some q) r -> k <> "".

(** The quote as it is read back from the cache. *)
Definition as_cached (q : Quote) : CachedQuote :=
  JSON_parse (JSON_stringify q).

(** The entries of a mapping that hold a quote. *)
Definition valid_quotes (results : obj (option Quote)) : list (string * Quote) :=
  flat_map (fun kv => match snd kv with
                      | Some q => [(fst kv, q)]
                      | None => []
                      end) results.

(** The store after the quotes of [l] were written at instant [t]. *)
Definition cache_all (t : Z) (l : list (string * Quote))
    (store : gmap string (CachedQuote * Z)) : gmap string (CachedQuote * Z) :=
  fold_left (fun m kv =>
               <[cache_key (fst kv) :=
                   (as_cached (snd kv), t + CACHE_EXPIRY_SECONDS)]> m)
            l store.

(** The event published for one quote, with the room it is addressed to. *)
Definition update_of (kv : string * Quote) : string * Event :=
  (roomName (fst kv), EvStockUpdate (fst kv) (snd kv)).

(** The server after the quotes of [l] were published, in order. *)
Definition publish_all (l : list (string * Quote)) (srv : Server) : Server :=
  fold_left (fun srv kv =>
               to_room_emit (fst (update_of kv)) (snd (update_of kv)) srv)
            l srv.

(** What one socket is sent when the quotes of [l] are published. *)
Definition deliver (l : list (string * Quote)) (s : Socket) : Socket :=
  fold_left (fun s kv =>
               if bool_decide (fst (update_of kv) ∈ rooms s)
               then emit s (snd (update_of kv)) else s)
            l s.

(** The quote built from [sample_yahoo_quote]. *)
Definition sample_quote : Quote :=
  {| price := VNum 150; change := VNum 1; changePercent := VNum 2;
     volume := VNum 1000000; marketState := VStr "REGULAR";
     symbol := "AAPL"; shortName := VStr "Apple Inc.";
     timestamp := Some (MkDate 1714150000000) |}.

(** The mapping the adapter returns in [sample_env]. *)
Definition sample_results : obj (option Quote) :=
  [("AAPL", Some sample_quote); ("MSFT", None)].

(** The environment of the examples, with the store not answering. *)
Definition sample_env_store_down : Env :=
  MkEnv 1000 (Ret [MkRow "AAPL"; MkRow "MSFT"])
        (fun _ => Ret (YArray [Some sample_yahoo_quote])) false.

(** The environment of the examples, with the database not answering. *)
Definition sample_env_db_down : Env :=
  MkEnv 1000 (Throw (Error "Can't reach database server"))
        (fun _ => Ret (YArray [Some sample_yahoo_quote])) true.

(** One call of [cacheStockUpdates]: the mapping written, and what the
    world was like then (the clock, whether the store answered). *)
Record CacheWrite : Type := MkWrite {
  w_env : Env;
  w_data : obj (option Quote)
}.

(** The state after a history of calls of [cacheStockUpdates]. *)
Definition run_writes (ws : list CacheWrite) (st : State) : State :=
  fold_left (fun st w => snd (cacheStockUpdates (w_data w) (w_env w) st)) ws st.

(** The write is a successful put for symbol [S]: the store answered and
    the mapping holds a quote for [S]. *)
Definition put_of (S : string) (w : CacheWrite) : option (Z * Quote) :=
  if redis_up (w_env w) then
    match obj_get (w_data w) S with
    | Some (Some q) => Some (now (w_env w), q)
    | _ => None
    end
  else None.

(** Instant and quote of the last successful put for [S]. *)
Definition last_put (S : string) (ws : list CacheWrite) : option (Z * Quote) :=
  fold_left (fun acc w => match put_of S w with
                          | Some p => Some p
                          | None => acc
                          end) ws None.

(** The mapping written is an object: one entry per key. *)
Definition is_object (w : CacheWrite) : Prop := NoDup (keys (w_data w)).

(** The environment of the examples at another instant, the store
    answering or not. *)
Definition sample_env_at (t : Z) (up : bool) : Env :=
  MkEnv t (Ret [MkRow "AAPL"; MkRow "MSFT"])
        (fun _ => Ret (YArray [Some sample_yahoo_quote])) up.

(** [Array.isArray(v)] *)
Definition is_array (v : value) : bool :=
  match v with VArr _ => true | _ => false end.

(** The subscription set and the rooms of a socket mirror each other: the
    set has no repetition and only non-empty tickers, the room of every
    tracked ticker is joined, and a joined room is that of a tracked ticker
    or the room named by the socket's own id. *)
Definition rooms_mirror_tickers (s : Socket) : Prop :=
  NoDup (subscribedTickers s)
  /\ (forall t, In t (subscribedTickers s) -> t <> "" /\ roomName t ∈ rooms s)
  /\ (forall r, r ∈ rooms s ->
      r = sid s \/ exists t, In t (subscribedTickers s) /\ r = roomName t).

(** The object the processing loop of [fetchStockData] stores for an
    upstream quote under the ticker [t]. *)
Definition quote_from (y : YahooQuote) (t : string) : Quote :=
  {| price := regularMarketPrice y;
     change := regularMarketChange y;
     changePercent := regularMarketChangePercent y;
     volume := regularMarketVolume y;
     marketState := y_marketState y;
     symbol := t;
     shortName := y_shortName y;
     timestamp := timestamp_of (regularMarketTime y) |}.

(** The upstream quote bears the symbol [t], which is not empty. *)
Definition bears_symbol (t : string) (y : YahooQuote) : bool :=
  match y_symbol y with
  | Some s => (String.eqb s t && negb (String.eqb s ""))%bool
  | None => false
  end.

(** The last quote of an upstream answer that bears the symbol [t]. *)
Definition last_quote_for (t : string) (ys : list YahooQuote)
  : option YahooQuote :=
  List.find (bears_symbol t) (rev ys).

(** The ticker list of a tick: the distinct tickers of the rows. *)
Definition master_of (rows : list WatchlistRow) : list string :=
  array_from (set_of_list (map ticker rows)).

(** The symbol of a search request is refused: it is missing or, once in
    upper case, empty or longer than 20. *)
Definition bad_symbol (toUpperCase : string -> string)
    (str_length : string -> nat) (param : option string) : Prop :=
  match param with
  | None => True
  | Some p => toUpperCase p = "" \/ (20 < str_length (toUpperCase p))%nat
  end.

(** The character [c] occurs in the string. *)
Fixpoint has_char (c : ascii) (s : string) : bool :=
  match s with
  | EmptyString => false
  | String c' r => (Ascii.eqb c' c || has_char c r)%bool
  end.

(** A ticker the watchlist handlers accept: the upper-case form of a string
    entry of the request whose length is between 1 and 19. *)
Definition accepted_ticker (toUpperCase : string -> string)
    (str_length : string -> nat) (items : list value) (t : string) : Prop :=
  exists s, In (VStr s) items
            /\ (0 < str_length s < 20)%nat /\ t = toUpperCase s.

(** The request passes the middleware of the stock routes as user [uid]:
    the header carries a non-empty bearer token, a signing secret is
    configured and the token verifies with it. *)
Definition passes_as (jwt_verify : string -> string -> Thrown + Z)
    (JWT_SECRET : option string) (authHeader : option string) (uid : Z) : Prop :=
  exists token secret,
    bearer_token authHeader = Some token /\ token <> ""
    /\ JWT_SECRET = Some secret /\ secret <> ""
    /\ jwt_verify token secret = inr uid.

(** A verifier for the examples of the stock routes: it knows the token of
    user 7 and an expired token. *)
Definition sample_rest_verify (token secret : string) : Thrown + Z :=
  if String.eqb token "good-token" then inr 7
  else if String.eqb token "old-token"
       then inl (ThrownJwt TokenExpiredError "jwt expired")
       else inl (ThrownJwt JsonWebTokenError "jwt malformed").

(** A database for the examples: it holds nothing and accepts every write. *)
Definition sample_database : Database :=
  MkDatabase (fun _ => inr [])
             (fun data => inr (Z.of_nat (length data)))
             (fun _ _ => inr 0).

(* ===================================================================== *)
(** ** Facts about the JavaScript containers *)
(* ===================================================================== *)

Section Containers.

Lemma set_has_In (s : jsset) (x : string) : set_has s x = true <-> In x s.
Proof.
  unfold set_has. rewrite existsb_exists. split.
  - intros (y & Hy & Heq). apply String.eqb_eq in Heq. now subst.
  - intros H. exists x. split; [assumption | apply String.eqb_refl].
Qed.

Lemma set_add_present (s : jsset) (x : string) : In x s -> set_add s x = s.
Proof.
  intros H. unfold set_add. apply set_has_In in H. now rewrite H.
Qed.

Lemma In_set_add (s : jsset) (x y : string) :
  In y (set_add s x) <-> In y s \/ y = x.
Proof.
  unfold set_add. destruct (set_has s x) eqn:E.
  - apply set_has_In in E. split; [tauto | intros [H | ->]; assumption].
  - rewrite in_app_iff. simpl. intuition congruence.
Qed.

Lemma In_set_delete (s : jsset) (x y : string) :
  In y (set_delete s x) <-> In y s /\ y <> x.
Proof.
  unfold set_delete. rewrite filter_In, negb_true_iff. split.
  - intros [H E]. split; [assumption |].
    intros ->. now rewrite String.eqb_refl in E.
  - intros [H N]. split; [assumption |].
    apply String.eqb_neq. congruence.
Qed.

Lemma In_set_of_list (l : list string) (x : string) :
  In x (set_of_list l) <-> In x l.
Proof.
  unfold set_of_list.
  assert (G : forall acc, In x (fold_left set_add l acc) <-> In x acc \/ In x l).
  { induction l as [| a l IH]; intros acc; simpl.
    - tauto.
    - rewrite IH, In_set_add. intuition congruence. }
  rewrite G. simpl. tauto.
Qed.

Context {A : Type}.

Lemma obj_get_set_same (o : obj A) (k : string) (v : A) :
  obj_get (obj_set o k v) k = Some v.
Proof.
  induction o as [| [k' v'] o IH]; simpl.
  - now rewrite String.eqb_refl.
  - destruct (String.eqb k' k) eqn:E; simpl; rewrite E; [reflexivity | exact IH].
Qed.

Lemma obj_get_set_other (o : obj A) (k k' : string) (v : A) :
  k <> k' -> obj_get (obj_set o k v) k' = obj_get o k'.
Proof.
  intros N. induction o as [| [k0 v0] o IH]; simpl.
  - apply String.eqb_neq in N. now rewrite N.
  - destruct (String.eqb k0 k) eqn:E; simpl.
    + apply String.eqb_eq in E. subst k0.
      apply String.eqb_neq in N. now rewrite N.
    + now rewrite IH.
Qed.

Lemma keys_obj_set_present (o : obj A) (k : string) (v : A) :
  In k (keys o) -> keys (obj_set o k v) = keys o.
Proof.
  unfold keys. induction o as [| [k0 v0] o IH]; simpl; [tauto |].
  intros H. destruct (String.eqb k0 k) eqn:E; simpl; [reflexivity |].
  f_equal. apply IH. destruct H as [-> | H]; [| assumption].
  now rewrite String.eqb_refl in E.
Qed.

Lemma keys_obj_set_fresh (o : obj A) (k : string) (v : A) :
  ~ In k (keys o) -> obj_set o k v = o ++ [(k, v)].
Proof.
  unfold keys. induction o as [| [k0 v0] o IH]; simpl; [reflexivity |].
  intros H. destruct (String.eqb k0 k) eqn:E.
  - apply String.eqb_eq in E. tauto.
  - f_equal. apply IH. tauto.
Qed.

Lemma obj_get_In_keys (o : obj A) (k : string) :
  In k (keys o) <-> obj_get o k <> None.
Proof.
  unfold keys. induction o as [| [k0 v0] o IH]; simpl; [tauto |].
  destruct (String.eqb k0 k) eqn:E.
  - apply String.eqb_eq in E. split; [discriminate | tauto].
  - apply String.eqb_neq in E. rewrite <- IH. tauto.
Qed.

Lemma NoDup_keys_obj_set (o : obj A) (k : string) (v : A) :
  NoDup (keys o) -> NoDup (keys (obj_set o k v)).
Proof.
  intros H. destruct (in_dec string_dec k (keys o)) as [I | I].
  - now rewrite keys_obj_set_present.
  - rewrite keys_obj_set_fresh by assumption. unfold keys in *.
    rewrite map_app. simpl. apply NoDup_app. repeat split.
    + assumption.
    + intros x Hx Hx'. apply list_elem_of_In in Hx, Hx'.
      simpl in Hx'. destruct Hx' as [<- | []]. tauto.
    + apply NoDup_singleton.
Qed.

(** In an object, a key has one entry. *)
Lemma obj_get_In (o : obj A) (k : string) (v : A) :
  NoDup (keys o) -> (In (k, v) o <-> obj_get o k = Some v).
Proof.
  unfold keys. induction o as [| [k0 v0] o IH]; simpl; intros ND.
  - split; [tauto | discriminate].
  - apply NoDup_cons in ND. destruct ND as [N ND].
    rewrite list_elem_of_In in N.
    destruct (String.eqb k0 k) eqn:E.
    + apply String.eqb_eq in E. subst k0. split.
      * intros [H | H]; [congruence |].
        exfalso. apply N. apply in_map_iff. now exists (k, v).
      * intros [= ->]. now left.
    + apply String.eqb_neq in E. rewrite <- (IH ND). split.
      * intros [H | H]; [congruence | assumption].
      * tauto.
Qed.

(** [Object.fromEntries] of the entries of an object is that object. *)
Lemma fromEntries_entries (l : list (string * A)) :
  NoDup (keys l) -> fromEntries l = l.
Proof.
  unfold fromEntries.
  assert (G : forall acc : obj A,
             NoDup (keys (acc ++ l)) ->
             fold_left (fun o kv => obj_set o (fst kv) (snd kv)) l acc
             = acc ++ l).
  { induction l as [| [k v] l IH]; intros acc ND; simpl.
    - now rewrite app_nil_r.
    - rewrite keys_obj_set_fresh.
      + rewrite IH; rewrite <- app_assoc; [reflexivity | exact ND].
      + unfold keys in ND. rewrite map_app in ND. simpl in ND.
        apply NoDup_app in ND. destruct ND as (_ & D & _).
        intros H. apply (D k); [now apply list_elem_of_In | left]. }
  intros ND. apply (G []). exact ND.
Qed.

End Containers.

(* ===================================================================== *)
(** ** The subscription hub *)
(* ===================================================================== *)

Lemma roomName_inj (t t' : string) : roomName t = roomName t' -> t = t'.
Proof. unfold roomName. cbv [String.append]. congruence. Qed.

Lemma subscribe_one_malformed (s : Socket) (v : value) :
  malformed v = true -> subscribe_one s v = s.
Proof.
  unfold malformed, subscribe_one. intros H.
  apply negb_true_iff in H. now rewrite H.
Qed.

Lemma subscribe_one_string (s : Socket) (t : string) :
  t <> "" ->
  subscribe_one s (VStr t)
  = MkSocket (sid s) (user s) ({[roomName t]} ∪ rooms s)
             (set_add (subscribedTickers s) t) (outbox s).
Proof.
  intros N. unfold subscribe_one. simpl.
  apply String.eqb_neq in N. now rewrite N.
Qed.

(** Either an entry is skipped, or it is a non-empty string. *)
Lemma entry_cases (v : value) :
  malformed v = true \/ exists t, v = VStr t /\ t <> "".
Proof.
  destruct v; try (left; unfold malformed; simpl;
                   now rewrite ?andb_false_r).
  destruct (String.eqb s "") eqn:E.
  - left. unfold malformed. simpl. now rewrite E.
  - right. exists s. split; [reflexivity | now apply String.eqb_neq].
Qed.


(** The subscription set after the loop over a request. *)
Lemma subscribe_fold_tickers (l : list value) (s : Socket) (t : string) :
  In t (subscribedTickers (fold_left subscribe_one l s))
  <-> In t (subscribedTickers s) \/ (In (VStr t) l /\ t <> "").
Proof.
  revert s. induction l as [| v l IH]; intros s; simpl; [tauto |].
  rewrite IH. destruct (entry_cases v) as [M | (t' & -> & N)].
  - rewrite subscribe_one_malformed by assumption.
    split; [tauto |]. intros [H | [[-> | H] N]]; [tauto | | tauto].
    unfold malformed in M. simpl in M.
    apply String.eqb_neq in N. rewrite N in M. discriminate.
  - rewrite subscribe_one_string by assumption. simpl.
    rewrite In_set_add. split.
    + intros [[H | ->] | H]; [tauto | | tauto]. right. tauto.
    + intros [H | [[[= ->] | H] N']]; tauto.
Qed.

(** The rooms after the loop over a request. *)
Lemma subscribe_fold_rooms (l : list value) (s : Socket) (r : string) :
  r ∈ rooms (fold_left subscribe_one l s)
  <-> r ∈ rooms s \/ exists t, In (VStr t) l /\ t <> "" /\ r = roomName t.
Proof.
  revert s. induction l as [| v l IH]; intros s; simpl.
  - split; [tauto | intros [H | (t & [] & _)]; exact H].
  - rewrite IH. destruct (entry_cases v) as [M | (t' & -> & N)].
    + rewrite subscribe_one_malformed by assumption.
      split; intros [H | (t & H & N & ->)]; try tauto.
      * right. exists t. tauto.
      * destruct H as [-> | H]; [| right; exists t; tauto].
        unfold malformed in M. simpl in M.
        apply String.eqb_neq in N. rewrite N in M. discriminate.
    + rewrite subscribe_one_string by assumption. simpl.
      rewrite elem_of_union, elem_of_singleton. split.
      * intros [[-> | H] | (t & H & N' & ->)]; try tauto.
        -- right. exists t'. tauto.
        -- right. exists t. tauto.
      * intros [H | (t & [[= ->] | H] & N' & ->)]; try tauto.
        right. exists t. tauto.
Qed.


Lemma handleSubscription_array (s : Socket) (l : list value) :
  l <> [] ->
  handleSubscription s (VArr l)
  = emit (fold_left subscribe_one l s) (EvSubscribed l).
Proof.
  intros N. unfold handleSubscription. simpl.
  destruct l; [congruence | reflexivity].
Qed.

Lemma handleSubscription_rooms_tickers (s : Socket) (l : list value) :
  rooms (handleSubscription s (VArr l)) = rooms (fold_left subscribe_one l s)
  /\ subscribedTickers (handleSubscription s (VArr l))
     = subscribedTickers (fold_left subscribe_one l s).
Proof.
  destruct l as [| v l]; [split; reflexivity |].
  rewrite handleSubscription_array by discriminate. split; reflexivity.
Qed.





(** C2 at its failing input: a connection that subscribes to "aapl" joins
    the room [stock_aapl], not [stock_AAPL]; an update published for "AAPL"
    goes to [stock_AAPL] and does not reach it, although the two symbols
    differ in letter case only. *)
Theorem subscribe_lowercase_misses_publish (env : Env) (q : Quote) :
  let s1 := handleSubscription sample_socket (VArr [VStr "aapl"]) in
  let st := MkState (Some (MkServer [s1] [])) ∅ [] in
  toUpperCase "aapl" = "AAPL"
  /\ subscribedTickers s1 = ["aapl"]
  /\ (roomName "aapl" ∈ rooms s1)
  /\ (roomName "AAPL" ∉ rooms s1)
  /\ broadcastStockUpdate "AAPL" q env st
     = (Ret tt,
        MkState
          (Some (MkServer [s1] [(roomName "AAPL", EvStockUpdate "AAPL" q)]))
          ∅ []).
Proof.
  intros s1 st.
  split; [reflexivity |]. split; [reflexivity |].
  split; [now apply (bool_decide_unpack _) |].
  split; [now apply (bool_decide_eq_false_1 _) |].
  reflexivity.
Qed.

(** *** Sockets as the handlers leave them *)

Lemma tracked_subscribe_fold (l : list value) (s : Socket) :
  tracked_in_room s -> tracked_in_room (fold_left subscribe_one l s).
Proof.
  intros I t H. apply subscribe_fold_tickers in H.
  rewrite subscribe_fold_rooms. destruct H as [H | [H N]].
  - destruct (I t H). tauto.
  - split; [assumption |]. right. exists t. tauto.
Qed.

Lemma tracked_unsubscribe_one (s : Socket) (v : value) :
  tracked_in_room s -> tracked_in_room (unsubscribe_one s v).
Proof.
  intros I. unfold unsubscribe_one.
  destruct (truthy v && is_string v)%bool; [| assumption].
  destruct v; try assumption.
  intros t H. simpl in *. apply In_set_delete in H. destruct H as [H N].
  destruct (I t H) as [N' R]. split; [assumption |].
  apply elem_of_difference. split; [assumption |].
  rewrite elem_of_singleton. intros E. apply roomName_inj in E. congruence.
Qed.

Lemma tracked_unsubscribe_fold (l : list value) (s : Socket) :
  tracked_in_room s -> tracked_in_room (fold_left unsubscribe_one l s).
Proof.
  revert s. induction l as [| v l IH]; intros s I; simpl; [assumption |].
  apply IH. now apply tracked_unsubscribe_one.
Qed.

Lemma reachable_tracked (s : Socket) : reachable s -> tracked_in_room s.
Proof.
  induction 1 as [socket_id u | s tickers R IH | s tickers R IH | s ev R IH].
  - intros t [].
  - unfold handleSubscription.
    destruct (length (ensure_array tickers) =? 0)%nat; [assumption |].
    intros t H. simpl in *. now apply tracked_subscribe_fold.
  - unfold handleUnsubscription.
    destruct (length (ensure_array tickers) =? 0)%nat; [assumption |].
    intros t H. simpl in *. now apply tracked_unsubscribe_fold.
  - exact IH.
Qed.

(** C8: for every connection and every symbol already in its subscription
    set, subscribing to the symbol again leaves the subscription set and the
    room membership unchanged, and the acknowledgement sent is the one any
    subscribe of that symbol produces, the first one included. *)
Theorem subscribe_idempotent (s : Socket) (t : string) :
  reachable s ->
  In t (subscribedTickers s) ->
  let s' := handleSubscription s (VArr [VStr t]) in
  subscribedTickers s' = subscribedTickers s
  /\ rooms s' = rooms s
  /\ outbox s' = outbox s ++ [EvSubscribed [VStr t]]
  /\ (forall s0 : Socket,
        outbox (handleSubscription s0 (VArr [VStr t]))
        = outbox s0 ++ [EvSubscribed [VStr t]]).
Proof.
  intros R H s'. subst s'.
  destruct (reachable_tracked s R t H) as [N Hroom].
  assert (Hack : forall s0 : Socket,
             outbox (handleSubscription s0 (VArr [VStr t]))
             = outbox s0 ++ [EvSubscribed [VStr t]]).
  { intros s0. rewrite handleSubscription_array by discriminate. simpl.
    now rewrite subscribe_one_string. }
  rewrite handleSubscription_array by discriminate. simpl.
  rewrite subscribe_one_string by assumption. simpl.
  repeat split.
  - now apply set_add_present.
  - apply set_eq. intros r. rewrite elem_of_union, elem_of_singleton.
    split; [intros [-> | Hr]; assumption | tauto].
  - exact Hack.
Qed.

Lemma subscribe_idempotent_witness :
  let s := handleSubscription sample_socket (VArr [VStr "AAPL"; VStr "MSFT"]) in
  let s' := handleSubscription s (VArr [VStr "AAPL"]) in
  subscribedTickers s' = subscribedTickers s
  /\ rooms s' = rooms s
  /\ outbox s' = outbox s ++ [EvSubscribed [VStr "AAPL"]]
  /\ (forall s0 : Socket,
        outbox (handleSubscription s0 (VArr [VStr "AAPL"]))
        = outbox s0 ++ [EvSubscribed [VStr "AAPL"]]).
Proof.
  intros s.
  apply (subscribe_idempotent s "AAPL").
  - apply reach_subscribe. apply reach_connection.
  - left. reflexivity.
Defined.

(* ===================================================================== *)
(** ** The handshake *)
(* ===================================================================== *)

(** A connection that is let in is created with an empty subscription set
    and is sent the welcome message first. *)
Lemma connect_accepted jwt_verify JWT_SECRET socket_id token srv u :
  auth_middleware jwt_verify JWT_SECRET token = Next u ->
  connect jwt_verify JWT_SECRET socket_id token srv
  = (Connected socket_id,
     MkServer
       (sockets srv ++
        [MkSocket socket_id u {[socket_id]} []
                  [EvWelcome socket_id (welcome_user u)]])
       (emitted srv)).
Proof. intros H. unfold connect. now rewrite H. Qed.

(** C5: when a signing secret is configured, a connection attempt whose
    token is absent, or is rejected by the verification (expired, bad
    signature, malformed), is refused by the middleware: the server is left
    as it was, so that no socket exists for the attempt and no welcome, nor
    any other message, is sent. *)
Theorem handshake_refuses_bad_token
    (jwt_verify : value -> string -> VerifyResult)
    (secret socket_id : string) (token : value) (srv : Server) :
  secret_missing (Some secret) = false ->
  (truthy token = false
   \/ exists name message, jwt_verify token secret = VerifyErr name message) ->
  exists e,
    connect jwt_verify (Some secret) socket_id token srv = (Refused e, srv)
    /\ sockets (snd (connect jwt_verify (Some secret) socket_id token srv))
       = sockets srv.
Proof.
  unfold secret_missing, connect, auth_middleware.
  intros Hsecret Htoken. rewrite Hsecret.
  destruct (truthy token) eqn:T; simpl.
  - destruct Htoken as [? | (name & message & ->)]; [discriminate |].
    eexists. split; reflexivity.
  - eexists. split; reflexivity.
Qed.

Lemma handshake_refuses_bad_token_witness :
  exists e,
    connect sample_verify (Some "s3cret") "sock9" (VStr "old-token")
            (MkServer [sample_socket] [])
    = (Refused e, MkServer [sample_socket] [])
    /\ sockets (snd (connect sample_verify (Some "s3cret") "sock9"
                       (VStr "old-token") (MkServer [sample_socket] [])))
       = [sample_socket].
Proof.
  apply (handshake_refuses_bad_token sample_verify "s3cret" "sock9"
           (VStr "old-token") (MkServer [sample_socket] [])).
  - reflexivity.
  - right. exists TokenExpiredError, "jwt expired". reflexivity.
Defined.

(* ===================================================================== *)
(** ** The quote source adapter *)
(* ===================================================================== *)

(** [fetchStockData], by cases on what the upstream does. *)
Lemma fetchStockData_run (tickers : list string) (env : Env) (st : State) :
  tickers <> [] ->
  fetchStockData tickers env st
  = (Ret (mapping_of tickers (yahoo env tickers)), asked st tickers).
Proof.
  intros N. unfold fetchStockData.
  destruct tickers as [| t tickers]; [congruence |].
  change (length (t :: tickers) =? 0)%nat with false. cbv iota.
  unfold bind, try_block, yahooFinance_quote, ret, asked, mapping_of,
    results_of, quotes_of.
  destruct (yahoo env (t :: tickers)) as [[l | q] | e]; try reflexivity;
    destruct (final_check _ _) as [[[] | e] r]; reflexivity.
Qed.

Lemma fetchStockData_empty (env : Env) (st : State) :
  fetchStockData [] env st = (Ret [], st).
Proof. reflexivity. Qed.

(** *** Assignments to [results] *)

Lemma In_obj_set {A} (o : obj A) (k k' : string) (v v' : A) :
  In (k', v') (obj_set o k v) -> In (k', v') o \/ (k' = k /\ v' = v).
Proof.
  induction o as [| [k0 v0] o IH]; simpl.
  - intros [[= <- <-] | []]. tauto.
  - destruct (String.eqb k0 k) eqn:E; simpl.
    + apply String.eqb_eq in E. subst k0.
      intros [[= <- <-] | H]; tauto.
    + intros [H | H]; [tauto |]. apply IH in H. tauto.
Qed.

(** An assignment sets the prototype or an own property. *)
Lemma assign_cases (r : Results) (k : string) (v : option Quote) :
  (k = "__proto__" /\ own (assign r k v) = own r)
  \/ (own (assign r k v) = obj_set (own r) k v
      /\ inherits (assign r k v) = inherits r).
Proof.
  unfold assign.
  destruct (String.eqb k "__proto__") eqn:E; simpl.
  - apply String.eqb_eq in E.
    destruct (inherits r && negb (hasOwnProperty (own r) k))%bool;
      simpl; tauto.
  - tauto.
Qed.

Lemma assign_other (r : Results) (k k' : string) (v : option Quote) :
  k <> k' -> obj_get (own (assign r k v)) k' = obj_get (own r) k'.
Proof.
  intros N. destruct (assign_cases r k v) as [[_ ->] | [-> _]];
    [reflexivity | now apply obj_get_set_other].
Qed.

Lemma assign_same (r : Results) (k : string) (v : option Quote) :
  k <> "__proto__" -> obj_get (own (assign r k v)) k = Some v.
Proof.
  intros N. destruct (assign_cases r k v) as [[E _] | [-> _]];
    [contradiction | apply obj_get_set_same].
Qed.

(** An own property stays one. *)
Lemma assign_keeps (r : Results) (k k' : string) (v : option Quote) :
  obj_get (own r) k' <> None -> obj_get (own (assign r k v)) k' <> None.
Proof.
  intros H. destruct (string_dec k k') as [-> | N].
  - destruct (assign_cases r k' v) as [[_ ->] | [-> _]]; [assumption |].
    rewrite obj_get_set_same. discriminate.
  - now rewrite assign_other.
Qed.

Lemma In_assign (r : Results) (k k' : string) (v v' : option Quote) :
  In (k', v') (own (assign r k v)) ->
  In (k', v') (own r) \/ (k' = k /\ v' = v).
Proof.
  destruct (assign_cases r k v) as [[_ ->] | [-> _]]; [tauto |].
  apply In_obj_set.
Qed.

(** The prototype chain is cut by the assignment of null to [__proto__]
    only. *)
Lemma assign_inherits (r : Results) (k : string) (v : option Quote) :
  k <> "__proto__" \/ v <> None ->
  inherits (assign r k v) = inherits r.
Proof.
  intros H. unfold assign.
  destruct (String.eqb k "__proto__") eqn:E; simpl; [| reflexivity].
  apply String.eqb_eq in E.
  destruct (inherits r) eqn:I; simpl; [| reflexivity].
  destruct (negb (hasOwnProperty (own r) k)); simpl; [| reflexivity].
  destruct v; [reflexivity |]. destruct H; congruence.
Qed.

Lemma assign_wf (r : Results) (k : string) (v : option Quote) :
  (forall q, v = Some q -> k <> "") ->
  NoDup (keys (own r)) /\ quotes_keyed (own r) ->
  NoDup (keys (own (assign r k v))) /\ quotes_keyed (own (assign r k v)).
Proof.
  intros Hk [ND K]. destruct (assign_cases r k v) as [[_ ->] | [-> _]];
    [tauto |].
  split; [now apply NoDup_keys_obj_set |].
  intros k' q H. apply In_obj_set in H. destruct H as [H | [-> E]].
  - now apply (K k' q).
  - apply (Hk q). now symmetry.
Qed.

Lemma fold_left_preserves {A B} (P : A -> Prop) (f : A -> B -> A) (l : list B) :
  (forall a b, P a -> P (f a b)) -> forall a, P a -> P (fold_left f l a).
Proof.
  intros Hf. induction l as [| b l IH]; intros a Ha; simpl; auto.
Qed.

(** What the final check leaves in [results] when it is done with the
    tickers, or at the call that throws. *)
Lemma final_check_preserves (P : Results -> Prop) :
  (forall r t, P r -> P (assign r t None)) ->
  forall tickers r, P r -> P (snd (final_check tickers r)).
Proof.
  intros Hp. induction tickers as [| t tickers IH]; intros r Hr; simpl.
  - exact Hr.
  - unfold mark_missing.
    destruct (call_hasOwnProperty r t) as [[|] | e]; simpl; auto.
Qed.

(** *** Which requested symbols are keys *)

Lemma mark_null_out (tickers : list string) (r : Results) (k : string) :
  ~ In k tickers ->
  obj_get (own (fold_left mark_null tickers r)) k = obj_get (own r) k.
Proof.
  revert r. induction tickers as [| t tickers IH]; intros r I; simpl.
  - reflexivity.
  - simpl in I. rewrite IH by tauto. unfold mark_null.
    apply assign_other. tauto.
Qed.

Lemma mark_null_in (tickers : list string) (r : Results) (k : string) :
  k <> "__proto__" -> In k tickers ->
  obj_get (own (fold_left mark_null tickers r)) k = Some None.
Proof.
  intros Hk. revert r.
  induction tickers as [| t tickers IH]; intros r; simpl; [tauto |].
  intros [-> | H]; [| now apply IH].
  destruct (in_dec string_dec k tickers) as [I | I]; [now apply IH |].
  rewrite mark_null_out by assumption. now apply assign_same.
Qed.

Lemma final_check_keeps (tickers : list string) (r : Results) (k : string) :
  obj_get (own r) k <> None ->
  obj_get (own (snd (final_check tickers r))) k <> None.
Proof.
  apply (final_check_preserves (fun r => obj_get (own r) k <> None)).
  intros r' t. apply assign_keeps.
Qed.

(** A final check that completes leaves every requested symbol but
    [__proto__] as a key. *)
Lemma final_check_covers (tickers : list string) (r : Results) (k : string) :
  fst (final_check tickers r) = Ret tt ->
  k <> "__proto__" -> In k tickers ->
  obj_get (own (snd (final_check tickers r))) k <> None.
Proof.
  intros Hret Hk. revert r Hret.
  induction tickers as [| t tickers IH]; intros r Hret; simpl; [tauto |].
  simpl in Hret. unfold mark_missing in *.
  destruct (call_hasOwnProperty r t) as [[|] | e] eqn:C;
    [| | discriminate Hret].
  - intros [-> | H]; [| now apply IH].
    apply final_check_keeps.
    unfold call_hasOwnProperty, hasOwnProperty in C.
    destruct (obj_get (own r) "hasOwnProperty"); [discriminate C |].
    destruct (inherits r); [| discriminate C].
    destruct (obj_get (own r) k); [discriminate | discriminate C].
  - intros [-> | H]; [| now apply IH].
    apply final_check_keeps. rewrite assign_same by assumption. discriminate.
Qed.

(** The mapping has every requested symbol but [__proto__] as a key. *)
Lemma mapping_of_covers (tickers : list string) (o : outcome YahooResponse)
    (k : string) :
  k <> "__proto__" -> In k tickers -> obj_get (mapping_of tickers o) k <> None.
Proof.
  intros Hk Hin. unfold mapping_of, results_of.
  destruct o as [resp | e].
  - pose proof (final_check_covers tickers
                  (fold_left process_quote (quotes_of resp) empty_object) k)
      as C.
    destruct (final_check _ _) as [[[] | e] r]; simpl in C.
    + now apply C.
    + rewrite mark_null_in by assumption. discriminate.
  - rewrite mark_null_in by assumption. discriminate.
Qed.


(** X24: the key the adapter can miss is [__proto__] alone: for every
    non-empty list of requested symbols, whatever the upstream does, the
    adapter returns (it does not throw) a mapping in which every requested
    symbol other than [__proto__] is a key; and when the upstream call
    fails as a whole, every requested symbol other than [__proto__] is
    mapped to null and no symbol that was not requested is a key. *)
Theorem fetch_covers_all_but_proto (tickers : list string) (env : Env)
    (st : State) :
  tickers <> [] ->
  exists results st',
    fetchStockData tickers env st = (Ret results, st')
    /\ (forall t, In t tickers -> t <> "__proto__" ->
                  hasOwnProperty results t = true)
    /\ (forall e, yahoo env tickers = Throw e ->
        forall t, (In t tickers -> t <> "__proto__" ->
                   obj_get results t = Some None)
                  /\ (~ In t tickers -> obj_get results t = None)).
Proof.
  intros N. rewrite fetchStockData_run by assumption.
  eexists. eexists. split; [reflexivity |]. split.
  - intros t H Hp. unfold hasOwnProperty.
    pose proof (mapping_of_covers tickers (yahoo env tickers) t Hp H) as C.
    destruct (obj_get _ t); [reflexivity | congruence].
  - intros e ->. intros t. unfold mapping_of, results_of. split.
    + intros H Hp. now apply mark_null_in.
    + intros H. now rewrite mark_null_out.
Qed.

Lemma fetch_covers_all_but_proto_witness :
  exists results st',
    fetchStockData ["AAPL"; "__proto__"; "MSFT"] sample_env_upstream_down
      sample_state
    = (Ret results, st')
    /\ (forall t, In t ["AAPL"; "__proto__"; "MSFT"] -> t <> "__proto__" ->
                  hasOwnProperty results t = true)
    /\ (forall e,
          yahoo sample_env_upstream_down ["AAPL"; "__proto__"; "MSFT"]
          = Throw e ->
        forall t, (In t ["AAPL"; "__proto__"; "MSFT"] -> t <> "__proto__" ->
                   obj_get results t = Some None)
                  /\ (~ In t ["AAPL"; "__proto__"; "MSFT"] ->
                      obj_get results t = None)).
Proof.
  apply (fetch_covers_all_but_proto ["AAPL"; "__proto__"; "MSFT"]
           sample_env_upstream_down sample_state).
  discriminate.
Defined.

(** *** Shape of the mapping the adapter returns *)

Lemma process_quote_wf (r : Results) (y : YahooQuote) :
  NoDup (keys (own r)) /\ quotes_keyed (own r) ->
  NoDup (keys (own (process_quote r y)))
  /\ quotes_keyed (own (process_quote r y)).
Proof.
  intros W. unfold process_quote.
  destruct (y_symbol y) as [t |]; [| exact W].
  destruct (String.eqb t "") eqn:E; simpl; [exact W |].
  apply assign_wf; [| exact W].
  intros _ _. now apply String.eqb_neq.
Qed.

Lemma mark_null_wf (r : Results) (t : string) :
  NoDup (keys (own r)) /\ quotes_keyed (own r) ->
  NoDup (keys (own (mark_null r t))) /\ quotes_keyed (own (mark_null r t)).
Proof.
  intros W. unfold mark_null. apply assign_wf; [| exact W].
  intros q [=].
Qed.

Lemma mapping_of_wf (tickers : list string) (o : outcome YahooResponse) :
  NoDup (keys (mapping_of tickers o)) /\ quotes_keyed (mapping_of tickers o).
Proof.
  unfold mapping_of, results_of.
  set (P := fun r : Results =>
              NoDup (keys (own r)) /\ quotes_keyed (own r)).
  assert (W0 : P empty_object).
  { split; [apply NoDup_nil_2 | intros k q []]. }
  assert (Wn : forall r, P r -> P (fold_left mark_null tickers r)).
  { intros r. apply (fold_left_preserves P mark_null). intros a b.
    apply mark_null_wf. }
  destruct o as [resp | e]; [| now apply Wn].
  assert (Wp : P (fold_left process_quote (quotes_of resp) empty_object)).
  { apply (fold_left_preserves P process_quote); [| exact W0].
    intros a b. apply process_quote_wf. }
  pose proof (final_check_preserves P mark_null_wf tickers _ Wp) as Wf.
  destruct (final_check _ _) as [[[] | e] r]; simpl in Wf;
    [exact Wf | now apply Wn].
Qed.

(** What [fetchStockData] returns is an object (one entry per key), its
    quotes sit under non-empty keys, and the call leaves the server and the
    store alone. *)
Lemma fetchStockData_wf (tickers : list string) (env : Env) (st st1 : State)
    (results : obj (option Quote)) :
  fetchStockData tickers env st = (Ret results, st1) ->
  NoDup (keys results) /\ quotes_keyed results
  /\ io st1 = io st /\ redis st1 = redis st.
Proof.
  destruct tickers as [| t tickers].
  - rewrite fetchStockData_empty. intros [= <- <-].
    repeat split; [apply NoDup_nil_2 | intros k q []].
  - rewrite fetchStockData_run by discriminate. intros [= <- <-].
    destruct (mapping_of_wf (t :: tickers) (yahoo env (t :: tickers))).
    repeat split; assumption.
Qed.

(* ===================================================================== *)
(** ** The cache *)
(* ===================================================================== *)

Lemma cache_key_inj (t t' : string) : cache_key t = cache_key t' -> t = t'.
Proof. unfold cache_key. cbv [String.append]. congruence. Qed.

Lemma In_valid_quotes (results : obj (option Quote)) (k : string) (q : Quote) :
  In (k, q) (valid_quotes results) <-> In (k, Some q) results.
Proof.
  unfold valid_quotes. rewrite in_flat_map. split.
  - intros ([k' [q' |]] & H & Hin); simpl in Hin; [| tauto].
    destruct Hin as [[= -> ->] | []]. exact H.
  - intros H. exists (k, Some q). split; [exact H | now left].
Qed.

(** The loop of [cacheStockUpdates] queues one command per quote. *)
Lemma queue_entries (data : obj (option Quote)) (p : list SetCommand) (n : nat) :
  fold_left queue_entry data (p, n)
  = (p ++ map (fun kv => MkSet (cache_key (fst kv)) (JSON_stringify (snd kv))
                               CACHE_EXPIRY_SECONDS)
              (valid_quotes data),
     (n + length (valid_quotes data))%nat).
Proof.
  revert p n. induction data as [| [k [q |]] data IH]; intros p n; simpl.
  - now rewrite app_nil_r, Nat.add_0_r.
  - rewrite IH. rewrite <- app_assoc. simpl. f_equal. lia.
  - apply IH.
Qed.

Lemma redis_set_all (t : Z) (l : list (string * Quote))
    (store : gmap string (CachedQuote * Z)) :
  fold_left (redis_set t)
    (map (fun kv => MkSet (cache_key (fst kv)) (JSON_stringify (snd kv))
                          CACHE_EXPIRY_SECONDS) l)
    store
  = cache_all t l store.
Proof.
  unfold cache_all. revert store.
  induction l as [| kv l IH]; intros store; simpl; [reflexivity |].
  now rewrite IH.
Qed.

(** [cacheStockUpdates] never throws; it leaves the server alone, and the
    store holds the quotes of [stockData] afterwards when it answers, and is
    unchanged when it does not. *)
Lemma cacheStockUpdates_run (stockData : obj (option Quote)) (env : Env)
    (st : State) :
  let r := cacheStockUpdates stockData env st in
  fst r = Ret tt
  /\ io (snd r) = io st
  /\ yahoo_calls (snd r) = yahoo_calls st
  /\ redis (snd r)
     = if redis_up env
       then cache_all (now env) (valid_quotes stockData) (redis st)
       else redis st.
Proof.
  unfold cacheStockUpdates.
  destruct stockData as [| kv data].
  - simpl. destruct (redis_up env); tauto.
  - change (length (keys (kv :: data)) =? 0)%nat with false. cbv iota.
    unfold entries. rewrite queue_entries. simpl app.
    destruct (valid_quotes (kv :: data)) as [| v l] eqn:E.
    + simpl. destruct (redis_up env); tauto.
    + change (0 <? 0 + length (v :: l))%nat with true. cbv iota.
      unfold try_catch, pipeline_exec, ret.
      destruct (redis_up env); simpl; [| tauto].
      repeat split. fold (cache_all (now env) (v :: l) (redis st)).
      change (as_cached (snd v)) with (JSON_parse (JSON_stringify (snd v))).
      now rewrite <- redis_set_all.
Qed.

(** Reading the cache never throws and changes nothing. *)
Lemma getCachedStockData_run (ticker : string) (env : Env) (st : State) :
  getCachedStockData ticker env st
  = (Ret (if redis_up env then
            match redis st !! cache_key ticker with
            | Some (v, expiry) => if now env <? expiry then Some v else None
            | None => None
            end
          else None),
     st).
Proof.
  unfold getCachedStockData, try_catch, bind, redis_get, ret.
  destruct (redis_up env); [| reflexivity].
  destruct (redis st !! cache_key ticker) as [[v expiry] |]; [| reflexivity].
  destruct (now env <? expiry); reflexivity.
Qed.

(* ===================================================================== *)
(** ** The fetch scheduler *)
(* ===================================================================== *)

Lemma emitted_publish_all (l : list (string * Quote)) (srv : Server) :
  emitted (publish_all l srv) = emitted srv ++ map update_of l.
Proof.
  unfold publish_all. revert srv.
  induction l as [| kv l IH]; intros srv; simpl.
  - now rewrite app_nil_r.
  - rewrite IH. simpl. now rewrite <- app_assoc.
Qed.

(** A socket that is in the room is sent the event; the others are not. *)
Lemma to_room_emit_sockets (room : string) (ev : Event) (srv : Server) :
  sockets (to_room_emit room ev srv)
  = map (fun s => if bool_decide (room ∈ rooms s) then emit s ev else s)
        (sockets srv).
Proof. reflexivity. Qed.

Lemma getMasterTickerList_run (env : Env) (st : State) :
  getMasterTickerList env st
  = (Ret match db env with
         | Ret rows => set_of_list (map ticker rows)
         | Throw _ => []
         end,
     st).
Proof.
  unfold getMasterTickerList, try_catch, bind, prisma_watchlist_findMany, ret.
  destruct (db env); reflexivity.
Qed.

Lemma valid_quotes_filter (results : obj (option Quote)) :
  valid_quotes (List.filter not_null results) = valid_quotes results.
Proof.
  induction results as [| [k [q |]] results IH]; simpl; [reflexivity | | exact IH].
  unfold valid_quotes in *. simpl. now rewrite IH.
Qed.

Lemma valid_quotes_nil (results : obj (option Quote)) :
  List.filter not_null results = [] -> valid_quotes results = [].
Proof.
  intros H. rewrite <- valid_quotes_filter. now rewrite H.
Qed.

Lemma NoDup_keys_filter {A} (f : string * A -> bool) (o : obj A) :
  NoDup (keys o) -> NoDup (keys (List.filter f o)).
Proof.
  unfold keys. induction o as [| kv o IH]; simpl; intros ND; [assumption |].
  apply NoDup_cons in ND. destruct ND as [N ND].
  destruct (f kv); simpl; [| now apply IH].
  apply NoDup_cons. split; [| now apply IH].
  intros H. apply N. apply list_elem_of_In in H. apply list_elem_of_In.
  apply in_map_iff in H. destruct H as (x & <- & Hx).
  apply filter_In in Hx. apply in_map. tauto.
Qed.

(** The publishing loop of a tick. *)
Lemma broadcast_all (results : obj (option Quote)) (env : Env) (st : State)
    (srv : Server) :
  io st = Some srv ->
  quotes_keyed results ->
  for_each (List.filter not_null results) broadcast_entry env st
  = (Ret tt,
     MkState (Some (publish_all (valid_quotes results) srv))
             (redis st) (yahoo_calls st)).
Proof.
  revert st srv. induction results as [| [k [q |]] results IH];
    intros st srv Hio K.
  - destruct st as [i r c]. simpl in *. now subst i.
  - assert (Hk : k <> "") by (apply (K k q); now left).
    assert (K' : quotes_keyed results).
    { intros k' q' H. apply (K k' q'). now right. }
    simpl. unfold bind at 1. unfold broadcast_entry at 1. simpl.
    unfold broadcastStockUpdate. rewrite Hio. simpl.
    apply String.eqb_neq in Hk. rewrite Hk. simpl.
    rewrite (IH (MkState
                   (Some (to_room_emit (roomName k) (EvStockUpdate k q) srv))
                   (redis st) (yahoo_calls st))
                (to_room_emit (roomName k) (EvStockUpdate k q) srv)
                eq_refl K').
    reflexivity.
  - simpl. apply IH; [assumption |].
    intros k' q' H. apply (K k' q'). now right.
Qed.

(** A block whose handler swallows the error always returns. *)
Lemma try_catch_returns (body : M unit) (env : Env) (st : State) :
  fst (try_catch body (fun error => ret tt) env st) = Ret tt.
Proof.
  unfold try_catch, ret. destruct (body env st) as [[[] | e] st']; reflexivity.
Qed.

(** A tick returns, whatever the database, the upstream and the store do. *)
Lemma tick_never_throws (env : Env) (st : State) :
  fst (runPeriodicFetch env st) = Ret tt.
Proof.
  unfold runPeriodicFetch, bind. rewrite getMasterTickerList_run.
  destruct (length _ =? 0)%nat; [reflexivity |].
  apply try_catch_returns.
Qed.

(** One tick, when the database answers and the server is up: the tick
    returns, the valid quotes of the adapter's mapping have been published
    in order, and they are in the store when the store answers. *)
Lemma tick_run (env : Env) (st st1 : State) (srv : Server)
    (rows : list WatchlistRow) (results : obj (option Quote)) :
  db env = Ret rows ->
  io st = Some srv ->
  fetchStockData (array_from (set_of_list (map ticker rows))) env st
  = (Ret results, st1) ->
  runPeriodicFetch env st
  = (Ret tt,
     MkState (Some (publish_all (valid_quotes results) srv))
             (if redis_up env
              then cache_all (now env) (valid_quotes results) (redis st)
              else redis st)
             (yahoo_calls st1)).
Proof.
  intros Hdb Hio Hfetch.
  destruct (fetchStockData_wf _ _ _ _ _ Hfetch) as (ND & K & Hio1 & Hredis1).
  unfold runPeriodicFetch, bind. rewrite getMasterTickerList_run, Hdb.
  destruct (array_from (set_of_list (map ticker rows))) as [| t tickers] eqn:E.
  - rewrite fetchStockData_empty in Hfetch. injection Hfetch as <- <-.
    destruct st as [i r c]. simpl in *. subst i.
    unfold ret. destruct (redis_up env); reflexivity.
  - change (length (t :: tickers) =? 0)%nat with false. cbv iota.
    unfold try_catch. rewrite Hfetch.
    destruct results as [| kv results].
    + destruct st1 as [i r c]. simpl in *. subst i r.
      unfold ret. rewrite Hio. destruct (redis_up env); reflexivity.
    + change (0 <? length (keys (kv :: results)))%nat with true. cbv iota.
      unfold entries.
      destruct (List.filter not_null (kv :: results)) as [| v l] eqn:F.
      * rewrite (valid_quotes_nil _ F).
        destruct st1 as [i r c]. simpl in *. subst i r.
        unfold ret. rewrite Hio. destruct (redis_up env); reflexivity.
      * change (0 <? length (v :: l))%nat with true. cbv iota.
        rewrite <- F. rewrite fromEntries_entries
          by (apply NoDup_keys_filter; exact ND).
        pose proof (cacheStockUpdates_run
                      (List.filter not_null (kv :: results)) env st1) as C.
        destruct (cacheStockUpdates (List.filter not_null (kv :: results))
                    env st1) as [o st2].
        cbn [fst snd] in C. destruct C as (-> & Hio2 & Hcalls2 & Hredis2).
        rewrite (broadcast_all (kv :: results) env st2 srv);
          [| congruence | exact K].
        rewrite Hredis2, Hcalls2, Hredis1, valid_quotes_filter.
        reflexivity.
Qed.

(** *** What the tick leaves in the store and sends to the sockets *)

Lemma cache_all_lookup_other (T : Z) (l : list (string * Quote))
    (m : gmap string (CachedQuote * Z)) (t : string) :
  (forall q, ~ In (t, q) l) ->
  cache_all T l m !! cache_key t = m !! cache_key t.
Proof.
  unfold cache_all. revert m.
  induction l as [| [k q] l IH]; intros m H; simpl; [reflexivity |].
  rewrite IH by (intros q' Hq; apply (H q'); now right).
  apply lookup_insert_ne. intros E. apply cache_key_inj in E. subst k.
  apply (H q). now left.
Qed.

Lemma cache_all_lookup_in (T : Z) (l : list (string * Quote))
    (m : gmap string (CachedQuote * Z)) (t : string) (q : Quote) :
  NoDup (map fst l) -> In (t, q) l ->
  cache_all T l m !! cache_key t = Some (as_cached q, T + CACHE_EXPIRY_SECONDS).
Proof.
  revert m. induction l as [| [k q0] l IH]; intros m ND H; [destruct H |].
  simpl in ND. apply NoDup_cons in ND. destruct ND as [N ND].
  destruct H as [[= -> ->] | H].
  - change (cache_all T ((t, q) :: l) m)
      with (cache_all T l (<[cache_key t :=
                               (as_cached q, T + CACHE_EXPIRY_SECONDS)]> m)).
    rewrite cache_all_lookup_other.
    + apply lookup_insert_eq.
    + intros q' Hq. apply N. apply list_elem_of_In.
      apply in_map_iff. now exists (t, q').
  - apply (IH _ ND H).
Qed.

Lemma NoDup_valid_quotes (results : obj (option Quote)) :
  NoDup (keys results) -> NoDup (map fst (valid_quotes results)).
Proof.
  unfold keys. induction results as [| [k [q |]] results IH]; simpl; intros ND.
  - apply NoDup_nil_2.
  - apply NoDup_cons in ND. destruct ND as [N ND].
    change (valid_quotes ((k, Some q) :: results))
      with ((k, q) :: valid_quotes results).
    simpl. apply NoDup_cons. split; [| now apply IH].
    intros H. apply N. apply list_elem_of_In in H. apply list_elem_of_In.
    apply in_map_iff in H. destruct H as ([k' q'] & E & H). simpl in E. subst k'.
    apply In_valid_quotes in H. apply in_map_iff. now exists (k, Some q').
  - apply NoDup_cons in ND. destruct ND as [N ND]. now apply IH.
Qed.

Lemma publish_all_sockets (l : list (string * Quote)) (srv : Server) :
  sockets (publish_all l srv) = map (deliver l) (sockets srv).
Proof.
  unfold publish_all, deliver. revert srv.
  induction l as [| kv l IH]; intros srv; simpl.
  - now rewrite map_id.
  - rewrite IH. simpl. now rewrite map_map.
Qed.

(** A socket is sent the updates of the rooms it is in, and only those. *)
Lemma deliver_outbox (l : list (string * Quote)) (s : Socket) :
  rooms (deliver l s) = rooms s
  /\ outbox (deliver l s)
     = outbox s ++
       map (fun kv => snd (update_of kv))
           (List.filter (fun kv => bool_decide (fst (update_of kv) ∈ rooms s)) l).
Proof.
  unfold deliver. revert s.
  induction l as [| kv l IH]; intros s.
  - simpl. now rewrite app_nil_r.
  - cbn [fold_left List.filter].
    destruct (bool_decide (fst (update_of kv) ∈ rooms s)) eqn:E.
    + destruct (IH (emit s (snd (update_of kv)))) as [Hr Ho].
      rewrite Hr, Ho. unfold emit. cbn [rooms outbox map].
      now rewrite <- app_assoc.
    + apply IH.
Qed.

(** An entry of the store under a key that no quote of [l] is written to
    is left as it was. *)
Lemma cache_all_lookup_frame (T : Z) (l : list (string * Quote))
    (m : gmap string (CachedQuote * Z)) (k : string) :
  (forall t q, In (t, q) l -> k <> cache_key t) ->
  cache_all T l m !! k = m !! k.
Proof.
  unfold cache_all. revert m.
  induction l as [| [t q] l IH]; intros m H; simpl; [reflexivity |].
  rewrite IH by (intros t' q' Hq; apply (H t' q'); now right).
  apply lookup_insert_ne. intros E. apply (H t q); [now left | congruence].
Qed.

Lemma deliver_sid (l : list (string * Quote)) (s : Socket) :
  sid (deliver l s) = sid s.
Proof.
  unfold deliver. revert s. induction l as [| kv l IH]; intros s; simpl.
  - reflexivity.
  - rewrite IH. now destruct (bool_decide _).
Qed.

(** Publishing the quotes of [l] sends the update of each of them to every
    socket that is in its room. *)
Lemma publish_all_delivers (l : list (string * Quote)) (srv : Server)
    (t : string) (q : Quote) (s : Socket) :
  In (t, q) l -> In s (sockets srv) -> roomName t ∈ rooms s ->
  exists s', In s' (sockets (publish_all l srv))
             /\ sid s' = sid s /\ In (EvStockUpdate t q) (outbox s').
Proof.
  intros Hin Hs Hroom. exists (deliver l s).
  split; [rewrite publish_all_sockets; now apply in_map |].
  split; [apply deliver_sid |].
  destruct (deliver_outbox l s) as [_ ->].
  apply in_or_app. right.
  apply in_map_iff. exists (t, q). split; [reflexivity |].
  apply filter_In. split; [exact Hin |].
  now apply bool_decide_eq_true_2.
Qed.

(** C3: for every tick in which the adapter returns a mapping with quotes
    and nulls, the tick returns without throwing; the updates it publishes
    are those of the symbols mapped to a quote, each to the room of its
    symbol, and no other; the cache entries it writes are those of the same
    symbols, each with its quote and the expiry 300 s ahead once the store
    has taken the batch, every other entry of the store being left as it
    was. *)
Theorem tick_partitions_results (env : Env) (st st1 : State) (srv : Server)
    (rows : list WatchlistRow) (results : obj (option Quote)) :
  db env = Ret rows ->
  io st = Some srv ->
  fetchStockData (array_from (set_of_list (map ticker rows))) env st
  = (Ret results, st1) ->
  exists st' srv' published,
    runPeriodicFetch env st = (Ret tt, st')
    /\ io st' = Some srv'
    /\ emitted srv' = emitted srv ++ published
    /\ (forall room ev,
          In (room, ev) published
          <-> exists t q, obj_get results t = Some (Some q)
                          /\ room = roomName t /\ ev = EvStockUpdate t q)
    /\ (forall t q,
          redis_up env = true ->
          obj_get results t = Some (Some q) ->
          redis st' !! cache_key t
          = Some (as_cached q, now env + CACHE_EXPIRY_SECONDS))
    /\ (forall k,
          (forall t q, obj_get results t = Some (Some q) -> k <> cache_key t) ->
          redis st' !! k = redis st !! k).
Proof.
  intros Hdb Hio Hfetch.
  destruct (fetchStockData_wf _ _ _ _ _ Hfetch) as (ND & K & _ & _).
  rewrite (tick_run env st st1 srv rows results Hdb Hio Hfetch).
  eexists. eexists. exists (map update_of (valid_quotes results)).
  split; [reflexivity |]. split; [reflexivity |].
  split; [apply emitted_publish_all |].
  cbn [redis]. split; [| split].
  - intros room ev. rewrite in_map_iff. split.
    + intros ([t q] & [= <- <-] & H). exists t, q.
      apply In_valid_quotes in H. apply (obj_get_In _ _ _ ND) in H. tauto.
    + intros (t & q & H & -> & ->). exists (t, q). split; [reflexivity |].
      apply In_valid_quotes. now apply obj_get_In.
  - intros t q -> H. apply (obj_get_In _ _ _ ND) in H.
    apply In_valid_quotes in H.
    apply cache_all_lookup_in; [now apply NoDup_valid_quotes | exact H].
  - intros k H. destruct (redis_up env); [| reflexivity].
    apply cache_all_lookup_frame. intros t q Hq.
    apply (H t q). apply In_valid_quotes in Hq. now apply obj_get_In.
Qed.

Lemma tick_partitions_results_witness :
  exists st' srv' published,
    runPeriodicFetch sample_env sample_state = (Ret tt, st')
    /\ io st' = Some srv'
    /\ emitted srv' = [] ++ published
    /\ In (roomName "AAPL", EvStockUpdate "AAPL" sample_quote) published
    /\ ~ In (roomName "MSFT", EvStockUpdate "MSFT" sample_quote) published
    /\ redis st' !! cache_key "AAPL" = Some (as_cached sample_quote, 1300)
    /\ redis st' !! cache_key "MSFT" = None.
Proof.
  destruct (tick_partitions_results sample_env sample_state
              (asked sample_state ["AAPL"; "MSFT"])
              (MkServer [sample_socket] [])
              [MkRow "AAPL"; MkRow "MSFT"] sample_results
              eq_refl eq_refl eq_refl)
    as (st' & srv' & published & Hrun & Hio & Hem & Hpub & Hvalid & Hframe).
  exists st', srv', published.
  split; [exact Hrun |]. split; [exact Hio |]. split; [exact Hem |].
  split; [| split; [| split]].
  - apply Hpub. exists "AAPL", sample_quote. repeat split.
  - intros H. apply Hpub in H. destruct H as (t & q & Hget & Hroom & _).
    apply roomName_inj in Hroom. subst t. discriminate Hget.
  - apply (Hvalid "AAPL" sample_quote); reflexivity.
  - rewrite (Hframe (cache_key "MSFT")); [reflexivity |].
    intros t q Hget E. apply cache_key_inj in E. subst t. discriminate Hget.
Defined.

(** C6: a tick during which the store does not answer still returns; the
    failed write is caught inside [cacheStockUpdates], which never throws,
    the store is left as it was, and every valid quote of the adapter's
    mapping is published to its room and sent to every socket that is in
    that room. *)
Theorem cache_failure_does_not_stop_publish (env : Env) (st st1 : State)
    (srv : Server) (rows : list WatchlistRow) (results : obj (option Quote)) :
  db env = Ret rows ->
  io st = Some srv ->
  redis_up env = false ->
  fetchStockData (array_from (set_of_list (map ticker rows))) env st
  = (Ret results, st1) ->
  (forall data env' st', fst (cacheStockUpdates data env' st') = Ret tt)
  /\ exists st' srv',
       runPeriodicFetch env st = (Ret tt, st')
       /\ io st' = Some srv'
       /\ redis st' = redis st
       /\ (forall t q,
             obj_get results t = Some (Some q) ->
             In (roomName t, EvStockUpdate t q) (emitted srv')
             /\ (forall s,
                   In s (sockets srv) -> roomName t ∈ rooms s ->
                   exists s', In s' (sockets srv') /\ sid s' = sid s
                              /\ In (EvStockUpdate t q) (outbox s'))).
Proof.
  intros Hdb Hio Hdown Hfetch. split.
  - intros data env' st'. apply (cacheStockUpdates_run data env' st').
  - destruct (fetchStockData_wf _ _ _ _ _ Hfetch) as (ND & _ & _ & _).
    rewrite (tick_run env st st1 srv rows results Hdb Hio Hfetch), Hdown.
    eexists. eexists. split; [reflexivity |]. split; [reflexivity |].
    split; [reflexivity |].
    intros t q H. apply (obj_get_In _ _ _ ND) in H.
    apply In_valid_quotes in H. split.
    + rewrite emitted_publish_all. apply in_or_app. right.
      apply in_map_iff. now exists (t, q).
    + intros s Hs Hroom. now apply publish_all_delivers.
Qed.

Lemma cache_failure_does_not_stop_publish_witness :
  let srv := MkServer [handleSubscription sample_socket (VArr [VStr "AAPL"])] [] in
  (forall data env' st', fst (cacheStockUpdates data env' st') = Ret tt)
  /\ exists st' srv',
       runPeriodicFetch sample_env_store_down (MkState (Some srv) ∅ [])
       = (Ret tt, st')
       /\ io st' = Some srv'
       /\ redis st' = ∅
       /\ In (roomName "AAPL", EvStockUpdate "AAPL" sample_quote) (emitted srv')
       /\ exists s', In s' (sockets srv') /\ sid s' = "sock1"
                     /\ In (EvStockUpdate "AAPL" sample_quote) (outbox s').
Proof.
  intros srv.
  destruct (cache_failure_does_not_stop_publish sample_env_store_down
              (MkState (Some srv) ∅ [])
              (asked (MkState (Some srv) ∅ []) ["AAPL"; "MSFT"])
              srv [MkRow "AAPL"; MkRow "MSFT"] sample_results
              eq_refl eq_refl eq_refl eq_refl)
    as (Hcache & st' & srv' & Hrun & Hio & Hredis & Hpub).
  split; [exact Hcache |].
  exists st', srv'.
  split; [exact Hrun |]. split; [exact Hio |]. split; [exact Hredis |].
  destruct (Hpub "AAPL" sample_quote eq_refl) as [Hem Hdel].
  split; [exact Hem |].
  apply (Hdel (handleSubscription sample_socket (VArr [VStr "AAPL"]))).
  - left. reflexivity.
  - now apply (bool_decide_unpack _).
Defined.

(** C10: [getMasterTickerList] always returns; a database error gives the
    empty set, and the tick, whose first step is outside its try/catch, then
    returns without calling the upstream, writing to the cache or publishing
    anything: the state is as before. *)
Theorem master_list_never_throws (env : Env) (st : State) :
  (exists set, getMasterTickerList env st = (Ret set, st))
  /\ (forall e, db env = Throw e ->
      getMasterTickerList env st = (Ret [], st)
      /\ runPeriodicFetch env st = (Ret tt, st)).
Proof.
  split.
  - eexists. apply getMasterTickerList_run.
  - intros e Hdb. split.
    + now rewrite getMasterTickerList_run, Hdb.
    + unfold runPeriodicFetch, bind.
      now rewrite getMasterTickerList_run, Hdb.
Qed.

Lemma master_list_never_throws_witness :
  getMasterTickerList sample_env_db_down sample_state = (Ret [], sample_state)
  /\ runPeriodicFetch sample_env_db_down sample_state = (Ret tt, sample_state).
Proof.
  destruct (master_list_never_throws sample_env_db_down sample_state) as [_ H].
  apply (H (Error "Can't reach database server")). reflexivity.
Defined.

(* ===================================================================== *)
(** ** Expiry of cache entries *)
(* ===================================================================== *)

(** The entry of [S] after a history of writes is that of the last
    successful put for [S]. *)
Lemma run_writes_lookup (ws : list CacheWrite) (st : State) (S : string) :
  Forall is_object ws ->
  redis (run_writes ws st) !! cache_key S
  = match last_put S ws with
    | Some (t, q) => Some (as_cached q, t + CACHE_EXPIRY_SECONDS)
    | None => redis st !! cache_key S
    end.
Proof.
  induction ws as [| w ws IH] using rev_ind; intros W; [reflexivity |].
  apply Forall_app in W. destruct W as [W Ww].
  apply Forall_inv in Ww. unfold is_object in Ww.
  unfold run_writes, last_put in *. rewrite !fold_left_app. simpl.
  destruct (cacheStockUpdates_run (w_data w) (w_env w)
              (fold_left
                 (fun st w => snd (cacheStockUpdates (w_data w) (w_env w) st))
                 ws st)) as (_ & _ & _ & ->).
  unfold put_of. destruct (redis_up (w_env w)); [| now apply IH].
  destruct (obj_get (w_data w) S) as [[q |] |] eqn:E.
  - apply cache_all_lookup_in; [now apply NoDup_valid_quotes |].
    apply In_valid_quotes. now apply obj_get_In.
  - rewrite cache_all_lookup_other; [now apply IH |].
    intros q Hq. apply In_valid_quotes in Hq.
    apply (obj_get_In _ _ _ Ww) in Hq. congruence.
  - rewrite cache_all_lookup_other; [now apply IH |].
    intros q Hq. apply In_valid_quotes in Hq.
    apply (obj_get_In _ _ _ Ww) in Hq. congruence.
Qed.

(** C7, as the cache implements it: a read never throws; when the store
    answers the read, [get(S)] is a miss exactly when the read occurs at
    least 300 s after the last successful put for [S], and otherwise a hit
    with the quote of that put as it reads back from its JSON text; when the
    store does not answer the read, the result is a miss. *)
Theorem cache_hit_until_expiry (ws : list CacheWrite) (st : State) (S : string)
    (env : Env) (t : Z) (q : Quote) :
  Forall is_object ws ->
  last_put S ws = Some (t, q) ->
  let r := getCachedStockData S env (run_writes ws st) in
  (exists res, fst r = Ret res)
  /\ (redis_up env = true ->
      (fst r = Ret None <-> t + CACHE_EXPIRY_SECONDS <= now env)
      /\ (now env < t + CACHE_EXPIRY_SECONDS ->
          fst r = Ret (Some (as_cached q))))
  /\ (redis_up env = false -> fst r = Ret None).
Proof.
  intros W L r. subst r. rewrite getCachedStockData_run. cbn [fst].
  rewrite (run_writes_lookup ws st S W), L.
  split; [eexists; reflexivity |]. split.
  - intros ->. destruct (Z.ltb_spec (now env) (t + CACHE_EXPIRY_SECONDS)).
    + split; [| reflexivity]. split; [discriminate | lia].
    + split; [| lia]. split; [lia | reflexivity].
  - now intros ->.
Qed.

Lemma cache_hit_until_expiry_witness :
  let st := run_writes [MkWrite sample_env sample_results] sample_state in
  fst (getCachedStockData "AAPL" (sample_env_at 1299 true) st)
  = Ret (Some (as_cached sample_quote))
  /\ fst (getCachedStockData "AAPL" (sample_env_at 1301 true) st) = Ret None
  /\ fst (getCachedStockData "AAPL" (sample_env_at 1299 false) st) = Ret None.
Proof.
  intros st.
  assert (W : Forall is_object [MkWrite sample_env sample_results]).
  { constructor; [| constructor]. unfold is_object. simpl.
    apply NoDup_cons. split; [now apply (bool_decide_eq_false_1 _) |].
    apply NoDup_singleton. }
  destruct (cache_hit_until_expiry [MkWrite sample_env sample_results]
              sample_state "AAPL" (sample_env_at 1299 true) 1000 sample_quote
              W eq_refl) as (_ & Hup & _).
  destruct (cache_hit_until_expiry [MkWrite sample_env sample_results]
              sample_state "AAPL" (sample_env_at 1301 true) 1000 sample_quote
              W eq_refl) as (_ & Hlate & _).
  destruct (cache_hit_until_expiry [MkWrite sample_env sample_results]
              sample_state "AAPL" (sample_env_at 1299 false) 1000 sample_quote
              W eq_refl) as (_ & _ & Hdown).
  split; [apply (Hup eq_refl); reflexivity |].
  split; [apply (Hlate eq_refl); discriminate | apply Hdown; reflexivity].
Defined.

(** C7, as stated, fails: 10 s after a successful put, a read on a store
    that does not answer is a miss, although fewer than 300 s have passed. *)
Lemma cache_miss_before_expiry :
  let st := run_writes [MkWrite sample_env sample_results] sample_state in
  let r := getCachedStockData "AAPL" (sample_env_at 1010 false) st in
  last_put "AAPL" [MkWrite sample_env sample_results] = Some (1000, sample_quote)
  /\ fst r = Ret None
  /\ ~ (fst r = Ret None <-> 1000 + CACHE_EXPIRY_SECONDS <= 1010).
Proof.
  intros st r. split; [reflexivity |]. split; [reflexivity |].
  intros [H _]. specialize (H eq_refl). unfold CACHE_EXPIRY_SECONDS in H. lia.
Qed.

(* ===================================================================== *)
(** ** The search endpoint *)
(* ===================================================================== *)

Section SearchEndpoint.

(** The upper-casing and the [length] of the runtime. *)
Variable toUpperCase : string -> string.
Variable str_length : string -> nat.

(** C9: a search never writes to the cache, whatever it answers; and on a
    cache miss the adapter is asked for the symbol, and when it returns a
    quote the answer is that fresh quote, with status 200. *)
Theorem search_leaves_cache (param : option string) (env : Env) (st : State) :
  redis (snd (searchStock toUpperCase str_length param env st)) = redis st
  /\ (forall p q,
        param = Some p ->
        toUpperCase p <> "" ->
        (str_length (toUpperCase p) <= 20)%nat ->
        fst (getCachedStockData (toUpperCase p) env st) = Ret None ->
        obj_get (mapping_of [toUpperCase p] (yahoo env [toUpperCase p]))
                (toUpperCase p) = Some (Some q) ->
        searchStock toUpperCase str_length param env st
        = (Ret (MkResponse 200 (JsonFresh (toUpperCase p) q)),
           asked st [toUpperCase p])).
Proof.
  unfold searchStock. destruct param as [p |]; [| split; [reflexivity |]].
  2: { intros p q [=]. }
  cbn [option_map].
  destruct (String.eqb (toUpperCase p) "") eqn:E.
  { split; [reflexivity |]. intros p' q [= <-] N.
    apply String.eqb_eq in E. contradiction. }
  destruct (20 <? str_length (toUpperCase p))%nat eqn:L.
  { split; [reflexivity |]. intros p' q [= <-] _ Hlen.
    apply Nat.ltb_lt in L. lia. }
  cbn [orb]. unfold try_catch, bind.
  rewrite getCachedStockData_run.
  destruct (if redis_up env then _ else _) as [cached |] eqn:C.
  { split; [reflexivity |]. intros p' q [= <-] _ _ H.
    rewrite getCachedStockData_run, C in H. discriminate H. }
  rewrite fetchStockData_run by discriminate.
  split.
  - destruct (obj_get _ _) as [[q |] |]; reflexivity.
  - intros p' q [= <-] _ _ _ ->. reflexivity.
Qed.

End SearchEndpoint.

Lemma search_leaves_cache_witness :
  redis (snd (searchStock JS.toUpperCase String.length (Some "aapl")
                sample_env sample_state))
  = redis sample_state
  /\ searchStock JS.toUpperCase String.length (Some "aapl") sample_env
       sample_state
     = (Ret (MkResponse 200 (JsonFresh "AAPL" sample_quote)),
        asked sample_state ["AAPL"]).
Proof.
  destruct (search_leaves_cache JS.toUpperCase String.length (Some "aapl")
              sample_env sample_state)
    as [Hframe Hmiss].
  split; [exact Hframe |].
  apply (Hmiss "aapl" sample_quote); try reflexivity.
  - discriminate.
  - simpl. lia.
Defined.

(* ===================================================================== *)
(** ** More on the subscription hub *)
(* ===================================================================== *)

Lemma unsubscribe_one_malformed (s : Socket) (v : value) :
  malformed v = true -> unsubscribe_one s v = s.
Proof.
  unfold malformed, unsubscribe_one. intros H.
  apply negb_true_iff in H. now rewrite H.
Qed.

Lemma unsubscribe_one_string (s : Socket) (t : string) :
  t <> "" ->
  unsubscribe_one s (VStr t)
  = MkSocket (sid s) (user s) (rooms s ∖ {[roomName t]})
             (set_delete (subscribedTickers s) t) (outbox s).
Proof.
  intros N. unfold unsubscribe_one. simpl.
  apply String.eqb_neq in N. now rewrite N.
Qed.

Lemma unsubscribe_fold_frame (l : list value) (s : Socket) :
  let s' := fold_left unsubscribe_one l s in
  sid s' = sid s /\ user s' = user s /\ outbox s' = outbox s.
Proof.
  revert s. induction l as [| v l IH]; intros s; simpl; [tauto |].
  destruct (IH (unsubscribe_one s v)) as (H1 & H2 & H3).
  rewrite H1, H2, H3.
  destruct (entry_cases v) as [M | (t & -> & N)].
  - now rewrite unsubscribe_one_malformed.
  - now rewrite unsubscribe_one_string.
Qed.

(** The subscription set after the loop over an unsubscribe request. *)
Lemma unsubscribe_fold_tickers (l : list value) (s : Socket) (t : string) :
  In t (subscribedTickers (fold_left unsubscribe_one l s))
  <-> In t (subscribedTickers s) /\ ~ (In (VStr t) l /\ t <> "").
Proof.
  revert s. induction l as [| v l IH]; intros s; simpl; [tauto |].
  rewrite IH. destruct (entry_cases v) as [M | (t' & -> & N)].
  - rewrite unsubscribe_one_malformed by assumption.
    split; [| tauto]. intros [H H']. split; [assumption |].
    intros [[-> | Hin] N]; [| tauto].
    unfold malformed in M. simpl in M.
    apply String.eqb_neq in N. rewrite N in M. discriminate.
  - rewrite unsubscribe_one_string by assumption. simpl.
    rewrite In_set_delete. split.
    + intros [[H D] H']. split; [assumption |].
      intros [[[= ->] | Hin] N']; tauto.
    + intros [H H']. split; [split; [assumption |] |].
      * intros ->. apply H'. split; [now left | assumption].
      * intros [Hin N']. apply H'. tauto.
Qed.

(** The rooms after the loop over an unsubscribe request. *)
Lemma unsubscribe_fold_rooms (l : list value) (s : Socket) (r : string) :
  r ∈ rooms (fold_left unsubscribe_one l s)
  <-> r ∈ rooms s /\ ~ (exists t, In (VStr t) l /\ t <> "" /\ r = roomName t).
Proof.
  revert s. induction l as [| v l IH]; intros s; simpl.
  - split; [intros H; split; [exact H | intros (t & [] & _)] | tauto].
  - rewrite IH. destruct (entry_cases v) as [M | (t' & -> & N)].
    + rewrite unsubscribe_one_malformed by assumption.
      split; intros [H H']; (split; [assumption |]).
      * intros (t & [-> | Hin] & N & ->).
        -- unfold malformed in M. simpl in M.
           apply String.eqb_neq in N. rewrite N in M. discriminate.
        -- apply H'. exists t. tauto.
      * intros (t & Hin & N & ->). apply H'. exists t. tauto.
    + rewrite unsubscribe_one_string by assumption. simpl.
      rewrite elem_of_difference, elem_of_singleton. split.
      * intros [[H D] H']. split; [assumption |].
        intros (t & [[= ->] | Hin] & N' & ->); [tauto |].
        apply H'. exists t. tauto.
      * intros [H H']. split; [split; [assumption |] |].
        -- intros ->. apply H'. exists t'. tauto.
        -- intros (t & Hin & N' & ->). apply H'. exists t. tauto.
Qed.

Lemma handleUnsubscription_array (s : Socket) (l : list value) :
  l <> [] ->
  handleUnsubscription s (VArr l)
  = emit (fold_left unsubscribe_one l s) (EvUnsubscribed l).
Proof.
  intros N. unfold handleUnsubscription. simpl.
  destruct l; [congruence | reflexivity].
Qed.

Lemma handleUnsubscription_rooms_tickers (s : Socket) (l : list value) :
  rooms (handleUnsubscription s (VArr l))
  = rooms (fold_left unsubscribe_one l s)
  /\ subscribedTickers (handleUnsubscription s (VArr l))
     = subscribedTickers (fold_left unsubscribe_one l s).
Proof.
  destruct l as [| v l]; [split; reflexivity |].
  rewrite handleUnsubscription_array by discriminate. split; reflexivity.
Qed.

Lemma NoDup_set_add (s : jsset) (x : string) : NoDup s -> NoDup (set_add s x).
Proof.
  intros ND. unfold set_add. destruct (set_has s x) eqn:E; [assumption |].
  apply NoDup_app. repeat split; [assumption | | apply NoDup_singleton].
  intros y Hy Hy'. apply list_elem_of_In in Hy, Hy'.
  destruct Hy' as [<- | []]. apply set_has_In in Hy. congruence.
Qed.

Lemma NoDup_set_delete (s : jsset) (x : string) :
  NoDup s -> NoDup (set_delete s x).
Proof.
  unfold set_delete. induction s as [| y s IH]; simpl; intros ND; [assumption |].
  apply NoDup_cons in ND. destruct ND as [N ND].
  destruct (negb (String.eqb x y)); [| now apply IH].
  apply NoDup_cons. split; [| now apply IH].
  intros H. apply N. apply list_elem_of_In in H. apply list_elem_of_In.
  apply filter_In in H. tauto.
Qed.

Lemma mirror_subscribe_one (s : Socket) (v : value) :
  rooms_mirror_tickers s -> rooms_mirror_tickers (subscribe_one s v).
Proof.
  intros (ND & T & R).
  destruct (entry_cases v) as [M | (t & -> & N)].
  - rewrite subscribe_one_malformed by assumption. exact (conj ND (conj T R)).
  - rewrite subscribe_one_string by assumption.
    unfold rooms_mirror_tickers. simpl. split; [now apply NoDup_set_add |].
    split.
    + intros t' H. apply In_set_add in H.
      rewrite elem_of_union, elem_of_singleton.
      destruct H as [H | ->]; [destruct (T t' H); tauto | tauto].
    + intros r. rewrite elem_of_union, elem_of_singleton.
      intros [-> | H].
      * right. exists t. rewrite In_set_add. tauto.
      * destruct (R r H) as [-> | (t' & H' & ->)]; [now left | right].
        exists t'. rewrite In_set_add. tauto.
Qed.

Lemma mirror_unsubscribe_one (s : Socket) (v : value) :
  rooms_mirror_tickers s -> rooms_mirror_tickers (unsubscribe_one s v).
Proof.
  intros (ND & T & R).
  destruct (entry_cases v) as [M | (t & -> & N)].
  - rewrite unsubscribe_one_malformed by assumption.
    exact (conj ND (conj T R)).
  - rewrite unsubscribe_one_string by assumption.
    unfold rooms_mirror_tickers. simpl. split; [now apply NoDup_set_delete |].
    split.
    + intros t' H. apply In_set_delete in H. destruct H as [H D].
      destruct (T t' H) as [N' Hr]. split; [assumption |].
      rewrite elem_of_difference, elem_of_singleton. split; [assumption |].
      intros E. apply roomName_inj in E. congruence.
    + intros r. rewrite elem_of_difference, elem_of_singleton.
      intros [H D].
      destruct (R r H) as [-> | (t' & H' & ->)]; [now left | right].
      exists t'. rewrite In_set_delete. split; [| reflexivity].
      split; [assumption | congruence].
Qed.

Lemma mirror_frame (s s' : Socket) :
  sid s' = sid s -> rooms s' = rooms s ->
  subscribedTickers s' = subscribedTickers s ->
  rooms_mirror_tickers s -> rooms_mirror_tickers s'.
Proof.
  unfold rooms_mirror_tickers. intros -> -> ->. tauto.
Qed.

Lemma reachable_mirror (s : Socket) : reachable s -> rooms_mirror_tickers s.
Proof.
  induction 1 as [socket_id u | s tickers R IH | s tickers R IH | s ev R IH].
  - unfold rooms_mirror_tickers. simpl. split; [apply NoDup_nil_2 |].
    split; [intros t [] |].
    intros r H. apply elem_of_singleton in H. now left.
  - unfold handleSubscription.
    destruct (length (ensure_array tickers) =? 0)%nat; [assumption |].
    apply (mirror_frame (fold_left subscribe_one (ensure_array tickers) s));
      try reflexivity.
    apply (fold_left_preserves rooms_mirror_tickers subscribe_one);
      [apply mirror_subscribe_one | assumption].
  - unfold handleUnsubscription.
    destruct (length (ensure_array tickers) =? 0)%nat; [assumption |].
    apply (mirror_frame (fold_left unsubscribe_one (ensure_array tickers) s));
      try reflexivity.
    apply (fold_left_preserves rooms_mirror_tickers unsubscribe_one);
      [apply mirror_unsubscribe_one | assumption].
  - apply (mirror_frame s); try reflexivity. assumption.
Qed.

(** X1: for every state a connected socket can be in, the subscription set
    has no repetition and holds non-empty tickers only, the room of every
    tracked ticker is joined, and, the room named by the socket's own id
    apart, every joined stock room is that of a tracked ticker. *)
Theorem hub_rooms_mirror_subscriptions (s : Socket) :
  reachable s ->
  NoDup (subscribedTickers s)
  /\ (forall t, In t (subscribedTickers s) -> t <> "" /\ roomName t ∈ rooms s)
  /\ (forall t, roomName t ∈ rooms s -> roomName t <> sid s ->
      In t (subscribedTickers s)).
Proof.
  intros R. destruct (reachable_mirror s R) as (ND & T & Rm).
  split; [assumption |]. split; [assumption |].
  intros t H N. destruct (Rm _ H) as [E | (t' & H' & E)]; [contradiction |].
  apply roomName_inj in E. now subst t'.
Qed.

Lemma hub_rooms_mirror_subscriptions_witness :
  let s := handleUnsubscription
             (handleSubscription sample_socket
                (VArr [VStr "AAPL"; VStr "MSFT"; VStr "AAPL"]))
             (VArr [VStr "AAPL"]) in
  NoDup (subscribedTickers s)
  /\ (forall t, In t (subscribedTickers s) -> t <> "" /\ roomName t ∈ rooms s)
  /\ (forall t, roomName t ∈ rooms s -> roomName t <> sid s ->
      In t (subscribedTickers s)).
Proof.
  intros s. apply (hub_rooms_mirror_subscriptions s).
  apply reach_unsubscribe, reach_subscribe, reach_connection.
Defined.

(** X2: an unsubscribe request given as an array removes from the
    subscription set exactly the non-empty string entries of the request,
    leaves exactly their rooms, skips every other entry, and is
    acknowledged with the request array as received (an empty array is
    ignored without acknowledgement). *)
Theorem unsubscribe_removes_listed (socket : Socket) (l : list value) :
  let socket' := handleUnsubscription socket (VArr l) in
  outbox socket'
  = outbox socket ++ match l with [] => [] | _ => [EvUnsubscribed l] end
  /\ (forall t, In t (subscribedTickers socket')
                <-> In t (subscribedTickers socket)
                    /\ ~ (In (VStr t) l /\ t <> ""))
  /\ (forall r, r ∈ rooms socket'
                <-> r ∈ rooms socket
                    /\ ~ (exists t, In (VStr t) l /\ t <> "" /\ r = roomName t)).
Proof.
  intros socket'. subst socket'.
  destruct (handleUnsubscription_rooms_tickers socket l) as [Hr Ht].
  split; [| split].
  - destruct l as [| v l]; [simpl; now rewrite app_nil_r |].
    rewrite handleUnsubscription_array by discriminate.
    unfold emit. cbn [outbox].
    now destruct (unsubscribe_fold_frame (v :: l) socket) as (_ & _ & ->).
  - intros t. rewrite Ht. apply unsubscribe_fold_tickers.
  - intros r. rewrite Hr. apply unsubscribe_fold_rooms.
Qed.

(** The sockets of a server after one of them handled an event. *)
Lemma In_update_socket (socket_id : string) (f : Socket -> Socket)
    (srv : Server) (s : Socket) :
  In s (sockets srv) -> sid s = socket_id ->
  In (f s) (sockets (update_socket socket_id f srv)).
Proof.
  intros H E. unfold update_socket. simpl. apply in_map_iff.
  exists s. split; [| exact H]. rewrite E, String.eqb_refl. reflexivity.
Qed.

(** A publication, when the server is up and the ticker is not empty. *)
Lemma broadcastStockUpdate_run (t : string) (q : Quote) (env : Env)
    (st : State) (srv : Server) :
  io st = Some srv -> t <> "" ->
  broadcastStockUpdate t q env st
  = (Ret tt,
     MkState (Some (to_room_emit (roomName t) (EvStockUpdate t q) srv))
             (redis st) (yahoo_calls st)).
Proof.
  intros Hio N. unfold broadcastStockUpdate. rewrite Hio. simpl.
  apply String.eqb_neq in N. now rewrite N.
Qed.

(** X3: once a connection has unsubscribed from a symbol, an update
    published for that symbol does not reach it: the socket is after the
    publication as the unsubscription left it. *)
Theorem unsubscribe_then_publish_silent (srv : Server) (socket_id : string)
    (l : list value) (t : string) (q : Quote) (env : Env) (st : State)
    (s : Socket) :
  io st = Some (on_unsubscribe socket_id (VArr l) srv) ->
  In (VStr t) l -> t <> "" ->
  In s (sockets srv) -> sid s = socket_id ->
  exists srv',
    broadcastStockUpdate t q env st
    = (Ret tt, MkState (Some srv') (redis st) (yahoo_calls st))
    /\ In (handleUnsubscription s (VArr l)) (sockets srv').
Proof.
  intros Hio Hin N Hs Hsid.
  rewrite (broadcastStockUpdate_run t q env st _ Hio N).
  eexists. split; [reflexivity |].
  rewrite to_room_emit_sockets. apply in_map_iff.
  exists (handleUnsubscription s (VArr l)). split.
  - rewrite bool_decide_eq_false_2; [reflexivity |].
    destruct (handleUnsubscription_rooms_tickers s l) as [-> _].
    rewrite unsubscribe_fold_rooms. intros [_ H]. apply H. exists t. tauto.
  - exact (In_update_socket socket_id
             (fun s => handleUnsubscription s (VArr l)) srv s Hs Hsid).
Qed.

Lemma unsubscribe_then_publish_silent_witness :
  let s := handleSubscription sample_socket (VArr [VStr "AAPL"; VStr "MSFT"]) in
  let srv := on_unsubscribe "sock1" (VArr [VStr "AAPL"]) (MkServer [s] []) in
  exists srv',
    broadcastStockUpdate "AAPL" sample_quote sample_env
      (MkState (Some srv) ∅ [])
    = (Ret tt, MkState (Some srv') ∅ [])
    /\ In (handleUnsubscription s (VArr [VStr "AAPL"])) (sockets srv').
Proof.
  intros s srv.
  apply (unsubscribe_then_publish_silent (MkServer [s] []) "sock1"
           [VStr "AAPL"] "AAPL" sample_quote sample_env
           (MkState (Some srv) ∅ []) s).
  - reflexivity.
  - left. reflexivity.
  - discriminate.
  - left. reflexivity.
  - reflexivity.
Defined.

Lemma set_delete_absent (s : jsset) (x : string) :
  ~ In x s -> set_delete s x = s.
Proof.
  unfold set_delete. induction s as [| y s IH]; simpl; intros H; [reflexivity |].
  destruct (String.eqb x y) eqn:E.
  - apply String.eqb_eq in E. exfalso. apply H. left. congruence.
  - simpl. f_equal. apply IH. tauto.
Qed.

Lemma set_delete_add (s : jsset) (x : string) :
  ~ In x s -> set_delete (set_add s x) x = s.
Proof.
  intros H. unfold set_add.
  destruct (set_has s x) eqn:E; [apply set_has_In in E; contradiction |].
  unfold set_delete. rewrite List.filter_app. simpl.
  rewrite String.eqb_refl. simpl. rewrite app_nil_r.
  now apply set_delete_absent.
Qed.

(** X4: for a connected socket that does not track a symbol (the symbol
    not being the one whose room bears the socket's own id), subscribing to
    the symbol and then unsubscribing from it gives back the subscription
    set and the rooms it had, the two acknowledgements being sent. *)
Theorem subscribe_unsubscribe_roundtrip (s : Socket) (t : string) :
  reachable s ->
  ~ In t (subscribedTickers s) -> t <> "" -> roomName t <> sid s ->
  let s' := handleUnsubscription (handleSubscription s (VArr [VStr t]))
                                 (VArr [VStr t]) in
  subscribedTickers s' = subscribedTickers s
  /\ rooms s' = rooms s
  /\ outbox s'
     = outbox s ++ [EvSubscribed [VStr t]; EvUnsubscribed [VStr t]].
Proof.
  intros R Hnot N Hsid s'. subst s'.
  destruct (reachable_mirror s R) as (_ & _ & Rm).
  assert (Hroom : roomName t ∉ rooms s).
  { intros H. destruct (Rm _ H) as [E | (t' & H' & E)]; [contradiction |].
    apply roomName_inj in E. now subst t'. }
  rewrite handleUnsubscription_array by discriminate.
  rewrite handleSubscription_array by discriminate. simpl.
  rewrite subscribe_one_string by assumption.
  unfold emit. cbn [sid user rooms subscribedTickers outbox].
  rewrite unsubscribe_one_string by assumption.
  cbn [sid user rooms subscribedTickers outbox].
  split; [now apply set_delete_add |]. split.
  - apply set_eq. intros r.
    rewrite elem_of_difference, elem_of_union, elem_of_singleton.
    split; [tauto |]. intros H. split; [tauto |]. now intros ->.
  - now rewrite <- app_assoc.
Qed.

Lemma subscribe_unsubscribe_roundtrip_witness :
  let s := handleSubscription sample_socket (VArr [VStr "MSFT"]) in
  let s' := handleUnsubscription (handleSubscription s (VArr [VStr "AAPL"]))
                                 (VArr [VStr "AAPL"]) in
  subscribedTickers s' = subscribedTickers s
  /\ rooms s' = rooms s
  /\ outbox s'
     = outbox s ++ [EvSubscribed [VStr "AAPL"]; EvUnsubscribed [VStr "AAPL"]].
Proof.
  intros s.
  apply (subscribe_unsubscribe_roundtrip s "AAPL").
  - apply reach_subscribe, reach_connection.
  - intros [H | []]. discriminate H.
  - discriminate.
  - discriminate.
Defined.

(** X5: a subscribe request that is not an array is taken as the array of
    that one value when the value is truthy, and is ignored, without
    acknowledgement, when it is falsy (null, undefined, the empty string,
    0, NaN, false); a truthy value that is not a string is acknowledged and
    subscribes to nothing. *)
Theorem subscribe_single_value (s : Socket) (v : value) :
  is_array v = false ->
  handleSubscription s v
  = (if truthy v then handleSubscription s (VArr [v]) else s)
  /\ (is_string v = false ->
      rooms (handleSubscription s v) = rooms s
      /\ subscribedTickers (handleSubscription s v) = subscribedTickers s).
Proof.
  intros A.
  assert (E : ensure_array v = if truthy v then [v] else []).
  { destruct v; try discriminate A; reflexivity. }
  split.
  - unfold handleSubscription. rewrite E.
    destruct (truthy v); reflexivity.
  - intros S. unfold handleSubscription. rewrite E.
    destruct (truthy v) eqn:T; [| split; reflexivity].
    simpl. unfold subscribe_one. rewrite T, S. split; reflexivity.
Qed.

Lemma subscribe_single_value_witness :
  handleSubscription sample_socket (VStr "AAPL")
  = handleSubscription sample_socket (VArr [VStr "AAPL"])
  /\ handleSubscription sample_socket VNull = sample_socket
  /\ rooms (handleSubscription sample_socket (VNum 42)) = rooms sample_socket.
Proof.
  split; [| split].
  - apply (subscribe_single_value sample_socket (VStr "AAPL")). reflexivity.
  - apply (subscribe_single_value sample_socket VNull). reflexivity.
  - apply (subscribe_single_value sample_socket (VNum 42)); reflexivity.
Defined.

(** X6: two subscribe requests in a row leave the subscription set and the
    rooms that the one request with both arrays, one after the other,
    leaves. *)
Theorem subscribe_batches_compose (s : Socket) (l1 l2 : list value) :
  let two := handleSubscription (handleSubscription s (VArr l1)) (VArr l2) in
  let one := handleSubscription s (VArr (l1 ++ l2)) in
  subscribedTickers two = subscribedTickers one /\ rooms two = rooms one.
Proof.
  intros two one. subst two one.
  destruct (handleSubscription_rooms_tickers s (l1 ++ l2)) as [-> ->].
  destruct (handleSubscription_rooms_tickers
              (handleSubscription s (VArr l1)) l2) as [-> ->].
  rewrite fold_left_app.
  assert (E : forall a b : Socket,
             rooms a = rooms b -> subscribedTickers a = subscribedTickers b ->
             rooms (fold_left subscribe_one l2 a)
             = rooms (fold_left subscribe_one l2 b)
             /\ subscribedTickers (fold_left subscribe_one l2 a)
                = subscribedTickers (fold_left subscribe_one l2 b)).
  { induction l2 as [| v l2 IH]; intros a b Hr Ht; [simpl; tauto |].
    simpl. apply IH.
    - destruct (entry_cases v) as [M | (t & -> & N)].
      + now rewrite !subscribe_one_malformed.
      + rewrite !subscribe_one_string by assumption. simpl. now rewrite Hr.
    - destruct (entry_cases v) as [M | (t & -> & N)].
      + now rewrite !subscribe_one_malformed.
      + rewrite !subscribe_one_string by assumption. simpl. now rewrite Ht. }
  destruct (handleSubscription_rooms_tickers s l1) as [Hr Ht].
  destruct (E _ _ Hr Ht) as [-> ->]. split; reflexivity.
Qed.

(** X7: an update published for a symbol is sent to the connections that
    track the symbol and to no other: with every socket of the server in a
    state the handlers lead to (none bearing the room's name as its id),
    the sockets after the publication are those before, the event appended
    to the outbox of exactly those whose subscription set has the symbol. *)
Theorem publish_follows_subscriptions (srv : Server) (t : string) (q : Quote)
    (env : Env) (st : State) :
  io st = Some srv -> t <> "" ->
  Forall (fun s => reachable s /\ sid s <> roomName t) (sockets srv) ->
  broadcastStockUpdate t q env st
  = (Ret tt,
     MkState
       (Some (MkServer
                (map (fun s => if set_has (subscribedTickers s) t
                               then emit s (EvStockUpdate t q) else s)
                     (sockets srv))
                (emitted srv ++ [(roomName t, EvStockUpdate t q)])))
       (redis st) (yahoo_calls st)).
Proof.
  intros Hio N Hall.
  rewrite (broadcastStockUpdate_run t q env st srv Hio N).
  unfold to_room_emit. do 4 f_equal.
  apply map_ext_in. intros s Hs.
  rewrite Forall_forall in Hall. destruct (Hall s) as [R Hsid].
  { now apply list_elem_of_In. }
  destruct (reachable_mirror s R) as (_ & T & Rm).
  destruct (set_has (subscribedTickers s) t) eqn:E.
  - apply set_has_In in E. destruct (T t E) as [_ Hr].
    now rewrite bool_decide_eq_true_2.
  - rewrite bool_decide_eq_false_2; [reflexivity |].
    intros Hr. destruct (Rm _ Hr) as [E' | (t' & H' & E')]; [congruence |].
    apply roomName_inj in E'. subst t'.
    apply set_has_In in H'. congruence.
Qed.

Lemma publish_follows_subscriptions_witness :
  let a := handleSubscription sample_socket (VArr [VStr "AAPL"]) in
  let b := handleSubscription (on_connection "sock2" None) (VArr [VStr "MSFT"]) in
  broadcastStockUpdate "AAPL" sample_quote sample_env
    (MkState (Some (MkServer [a; b] [])) ∅ [])
  = (Ret tt,
     MkState
       (Some (MkServer
                [emit a (EvStockUpdate "AAPL" sample_quote); b]
                [(roomName "AAPL", EvStockUpdate "AAPL" sample_quote)]))
       ∅ []).
Proof.
  intros a b.
  apply (publish_follows_subscriptions (MkServer [a; b] []) "AAPL"
           sample_quote sample_env (MkState (Some (MkServer [a; b] [])) ∅ [])).
  - reflexivity.
  - discriminate.
  - repeat constructor; try discriminate;
      apply reach_subscribe, reach_connection.
Defined.

(* ===================================================================== *)
(** ** More on the handshake *)
(* ===================================================================== *)

(** X8: a connection attempt is let in exactly when no signing secret is
    configured (whatever the token, even none) or the token is present and
    verifies; the socket created then has an empty subscription set, is in
    the room of its own id only, has been sent the welcome message and
    nothing else, and carries the verified user id, or no identity when no
    secret is configured. *)
Theorem connect_accepts_iff (jwt_verify : value -> string -> VerifyResult)
    (JWT_SECRET : option string) (socket_id : string) (token : value)
    (srv : Server) :
  let r := connect jwt_verify JWT_SECRET socket_id token srv in
  ((exists srv', r = (Connected socket_id, srv'))
   <-> secret_missing JWT_SECRET = true
       \/ exists secret uid,
            JWT_SECRET = Some secret /\ truthy token = true
            /\ jwt_verify token secret = VerifyOk uid)
  /\ (forall srv',
        r = (Connected socket_id, srv') ->
        exists u,
          srv' = MkServer
                   (sockets srv ++
                    [MkSocket socket_id u {[socket_id]} []
                              [EvWelcome socket_id (welcome_user u)]])
                   (emitted srv)
          /\ (secret_missing JWT_SECRET = true -> u = None)
          /\ (forall secret uid,
                JWT_SECRET = Some secret -> secret <> "" ->
                jwt_verify token secret = VerifyOk uid -> u = Some uid)).
Proof.
  intros r. subst r. unfold connect, auth_middleware, secret_missing.
  destruct JWT_SECRET as [secret |].
  2: { split.
       - split; [now left | intros _; eexists; reflexivity].
       - intros srv' [= <-]. exists None. split; [reflexivity |].
         split; [reflexivity | intros ? ? [=]]. }
  destruct (String.eqb secret "") eqn:E.
  { split.
    - split; [now left | intros _; eexists; reflexivity].
    - intros srv' [= <-]. exists None. split; [reflexivity |].
      split; [reflexivity |]. intros s uid [= <-] N.
      apply String.eqb_eq in E. contradiction. }
  destruct (truthy token) eqn:T; simpl.
  2: { split.
       - split; [intros (? & [=]) |].
         intros [[=] | (s & uid & _ & [=] & _)].
       - intros srv' [=]. }
  destruct (jwt_verify token secret) as [name message | uid] eqn:V.
  - split.
    + split; [intros (? & [=]) |].
      intros [[=] | (s & uid & [= <-] & _ & H)]. congruence.
    + intros srv' [=].
  - split.
    + split; [| intros _; eexists; reflexivity].
      intros _. right. exists secret, uid. tauto.
    + intros srv' [= <-]. exists (Some uid). split; [reflexivity |].
      split; [intros [=] |]. intros s uid' [= <-] _. congruence.
Qed.

(* ===================================================================== *)
(** ** More on the fetch scheduler and the adapter *)
(* ===================================================================== *)

Lemma deliver_frame (l : list (string * Quote)) (s : Socket) :
  sid (deliver l s) = sid s
  /\ subscribedTickers (deliver l s) = subscribedTickers s.
Proof.
  unfold deliver. revert s. induction l as [| kv l IH]; intros s.
  - simpl. tauto.
  - cbn [fold_left].
    match goal with
    | |- context [fold_left _ l ?x] => destruct (IH x) as [-> ->]
    end.
    now destruct (bool_decide _).
Qed.

(** X9: in a tick, every connected socket is sent exactly the updates of
    the symbols that the adapter mapped to a quote and whose room the socket
    is in; its identity, its rooms and its subscription set are untouched,
    and nothing already in its outbox is lost. *)
Theorem tick_delivers_to_subscribers (env : Env) (st st1 : State)
    (srv : Server) (rows : list WatchlistRow) (results : obj (option Quote))
    (s : Socket) :
  db env = Ret rows ->
  io st = Some srv ->
  fetchStockData (master_of rows) env st = (Ret results, st1) ->
  In s (sockets srv) ->
  exists st' srv' s' received,
    runPeriodicFetch env st = (Ret tt, st')
    /\ io st' = Some srv'
    /\ In s' (sockets srv')
    /\ sid s' = sid s /\ rooms s' = rooms s
    /\ subscribedTickers s' = subscribedTickers s
    /\ outbox s' = outbox s ++ received
    /\ (forall ev,
          In ev received
          <-> exists t q, obj_get results t = Some (Some q)
                          /\ roomName t ∈ rooms s
                          /\ ev = EvStockUpdate t q).
Proof.
  intros Hdb Hio Hfetch Hs.
  destruct (fetchStockData_wf _ _ _ _ _ Hfetch) as (ND & _ & _ & _).
  unfold master_of in Hfetch.
  rewrite (tick_run env st st1 srv rows results Hdb Hio Hfetch).
  destruct (deliver_frame (valid_quotes results) s) as [Hsid Hsubs].
  destruct (deliver_outbox (valid_quotes results) s) as [Hrooms Hout].
  eexists. eexists. exists (deliver (valid_quotes results) s). eexists.
  split; [reflexivity |]. split; [reflexivity |].
  split; [rewrite publish_all_sockets; now apply in_map |].
  split; [assumption |]. split; [assumption |]. split; [assumption |].
  split; [exact Hout |].
  intros ev. rewrite in_map_iff. split.
  - intros ([t q] & <- & H). apply filter_In in H. destruct H as [H B].
    exists t, q. apply In_valid_quotes in H.
    apply (obj_get_In _ _ _ ND) in H.
    split; [assumption |]. split; [| reflexivity].
    now apply bool_decide_eq_true_1 in B.
  - intros (t & q & H & Hr & ->). exists (t, q). split; [reflexivity |].
    apply filter_In. split.
    + apply In_valid_quotes. now apply obj_get_In.
    + now apply bool_decide_eq_true_2.
Qed.

Lemma tick_delivers_to_subscribers_witness :
  let s := handleSubscription sample_socket (VArr [VStr "AAPL"; VStr "MSFT"]) in
  exists st' srv' s' received,
    runPeriodicFetch sample_env (MkState (Some (MkServer [s] [])) ∅ [])
    = (Ret tt, st')
    /\ io st' = Some srv'
    /\ In s' (sockets srv')
    /\ sid s' = sid s /\ rooms s' = rooms s
    /\ subscribedTickers s' = subscribedTickers s
    /\ outbox s' = outbox s ++ received
    /\ (forall ev,
          In ev received
          <-> exists t q, obj_get sample_results t = Some (Some q)
                          /\ roomName t ∈ rooms s
                          /\ ev = EvStockUpdate t q).
Proof.
  intros s.
  apply (tick_delivers_to_subscribers sample_env
           (MkState (Some (MkServer [s] [])) ∅ [])
           (asked (MkState (Some (MkServer [s] [])) ∅ []) ["AAPL"; "MSFT"])
           (MkServer [s] []) [MkRow "AAPL"; MkRow "MSFT"] sample_results s).
  - reflexivity.
  - reflexivity.
  - reflexivity.
  - left. reflexivity.
Defined.

Lemma NoDup_set_of_list (l : list string) : NoDup (set_of_list l).
Proof.
  unfold set_of_list.
  apply (fold_left_preserves (fun s : jsset => NoDup s) set_add);
    [intros a b; apply NoDup_set_add | apply NoDup_nil_2].
Qed.

(** X10: the master ticker list is the distinct union of the watchlists:
    when the database answers, [getMasterTickerList] returns, without
    touching the state, a list without repetition whose members are exactly
    the tickers of the rows. *)
Theorem master_list_is_distinct_union (env : Env) (st : State)
    (rows : list WatchlistRow) :
  db env = Ret rows ->
  exists set,
    getMasterTickerList env st = (Ret set, st)
    /\ NoDup set
    /\ (forall t, In t set <-> exists row, In row rows /\ ticker row = t).
Proof.
  intros Hdb. rewrite getMasterTickerList_run, Hdb.
  eexists. split; [reflexivity |]. split; [apply NoDup_set_of_list |].
  intros t. rewrite In_set_of_list, in_map_iff.
  split; intros (row & H1 & H2); exists row; tauto.
Qed.

Lemma master_list_is_distinct_union_witness :
  exists set,
    getMasterTickerList
      (MkEnv 1000 (Ret [MkRow "AAPL"; MkRow "MSFT"; MkRow "AAPL"])
             (fun _ => Throw (Error "down")) true) sample_state
    = (Ret set, sample_state)
    /\ NoDup set
    /\ (forall t, In t set
                  <-> exists row,
                        In row [MkRow "AAPL"; MkRow "MSFT"; MkRow "AAPL"]
                        /\ ticker row = t).
Proof.
  apply (master_list_is_distinct_union
           (MkEnv 1000 (Ret [MkRow "AAPL"; MkRow "MSFT"; MkRow "AAPL"])
                  (fun _ => Throw (Error "down")) true)
           sample_state [MkRow "AAPL"; MkRow "MSFT"; MkRow "AAPL"]).
  reflexivity.
Defined.

Lemma mark_null_all_null (tickers : list string) :
  List.filter not_null (own (fold_left mark_null tickers empty_object)) = [].
Proof.
  assert (G : forall k v,
             In (k, v) (own (fold_left mark_null tickers empty_object)) ->
             v = None).
  { apply (fold_left_preserves
             (fun r : Results => forall k v, In (k, v) (own r) -> v = None)
             mark_null).
    - intros r t H k v Hin. unfold mark_null in Hin.
      apply In_assign in Hin. destruct Hin as [Hin | [_ ->]]; eauto.
    - intros k v []. }
  induction (own (fold_left mark_null tickers empty_object)) as [| [k v] r IH];
    [reflexivity |].
  simpl. rewrite (G k v) by now left. simpl.
  apply IH. intros k' v' H. apply (G k' v'). now right.
Qed.

(** X11: a tick in which the upstream call fails as a whole returns
    without publishing anything and without writing to the cache: the only
    trace it leaves is the one request made to the upstream. *)
Theorem tick_upstream_failure_silent (env : Env) (st : State)
    (rows : list WatchlistRow) (e : exn) :
  db env = Ret rows ->
  master_of rows <> [] ->
  yahoo env (master_of rows) = Throw e ->
  runPeriodicFetch env st = (Ret tt, asked st (master_of rows)).
Proof.
  intros Hdb Hne Hy.
  unfold runPeriodicFetch, bind. rewrite getMasterTickerList_run, Hdb.
  fold (master_of rows).
  destruct (master_of rows) as [| t l] eqn:E; [contradiction |].
  change (length (t :: l) =? 0)%nat with false. cbv iota.
  unfold try_catch. rewrite fetchStockData_run by discriminate.
  rewrite Hy. unfold mapping_of, results_of, entries.
  rewrite mark_null_all_null.
  destruct (0 <? length (keys (own (fold_left mark_null (t :: l)
                                      empty_object))))%nat;
    reflexivity.
Qed.

Lemma tick_upstream_failure_silent_witness :
  runPeriodicFetch sample_env_upstream_down sample_state
  = (Ret tt, asked sample_state ["AAPL"; "MSFT"]).
Proof.
  apply (tick_upstream_failure_silent sample_env_upstream_down sample_state
           [MkRow "AAPL"; MkRow "MSFT"] (Error "fetch failed")).
  - reflexivity.
  - discriminate.
  - reflexivity.
Defined.

(** The publishing loop returns and touches neither the store nor the list
    of upstream requests, whatever the state of the server. *)
Lemma for_each_broadcast_frame (l : list (string * option Quote)) (env : Env)
    (st : State) :
  let r := for_each l broadcast_entry env st in
  fst r = Ret tt /\ redis (snd r) = redis st
  /\ yahoo_calls (snd r) = yahoo_calls st.
Proof.
  revert st. induction l as [| [k [q |]] l IH]; intros st; simpl.
  - tauto.
  - unfold bind, broadcast_entry. simpl. unfold broadcastStockUpdate.
    destruct (io st) as [srv |]; [| apply IH].
    destruct (negb (truthy (VStr k))); [apply IH |].
    destruct (IH (MkState
                    (Some (to_room_emit (roomName k) (EvStockUpdate k q) srv))
                    (redis st) (yahoo_calls st))) as (H1 & H2 & H3).
    tauto.
  - unfold bind, broadcast_entry. simpl. unfold broadcastStockUpdate_null.
    destruct (io st) as [srv |]; [| apply IH].
    destruct (negb (truthy (VStr k))); [apply IH |].
    destruct (IH (MkState
                    (Some (to_room_emit (roomName k) (EvStockUpdateNull k) srv))
                    (redis st) (yahoo_calls st))) as (H1 & H2 & H3).
    tauto.
Qed.

(** X12: the whole master list goes to the upstream in one request: after
    a tick, whatever the upstream and the store did, the requests made to
    the upstream are those made before and, when the master list is not
    empty, one request for the whole list; an empty master list makes no
    request. *)
Theorem tick_asks_upstream_once (env : Env) (st : State)
    (rows : list WatchlistRow) :
  db env = Ret rows ->
  yahoo_calls (snd (runPeriodicFetch env st))
  = yahoo_calls st ++ match master_of rows with
                      | [] => []
                      | master => [master]
                      end.
Proof.
  intros Hdb.
  unfold runPeriodicFetch, bind. rewrite getMasterTickerList_run, Hdb.
  fold (master_of rows).
  destruct (master_of rows) as [| t l] eqn:E.
  { simpl. now rewrite app_nil_r. }
  change (length (t :: l) =? 0)%nat with false. cbv iota.
  unfold try_catch. rewrite fetchStockData_run by discriminate.
  set (results := mapping_of (t :: l) (yahoo env (t :: l))).
  set (st1 := asked st (t :: l)).
  destruct (0 <? length (keys results))%nat; [| reflexivity].
  destruct (0 <? length (List.filter not_null (entries results)))%nat;
    [| reflexivity].
  pose proof (cacheStockUpdates_run
                (fromEntries (List.filter not_null (entries results)))
                env st1) as C.
  destruct (cacheStockUpdates _ env st1) as [o st2].
  cbn [fst snd] in C. destruct C as (-> & _ & C & _).
  pose proof (for_each_broadcast_frame
                (List.filter not_null (entries results)) env st2) as F.
  destruct (for_each _ broadcast_entry env st2) as [o st3].
  cbn [fst snd] in F. destruct F as (-> & _ & F).
  simpl. rewrite F, C. reflexivity.
Qed.

Lemma tick_asks_upstream_once_witness :
  yahoo_calls (snd (runPeriodicFetch sample_env sample_state))
  = [["AAPL"; "MSFT"]].
Proof.
  apply (tick_asks_upstream_once sample_env sample_state
           [MkRow "AAPL"; MkRow "MSFT"]).
  reflexivity.
Defined.

Lemma reserved_false (k : string) :
  reserved k = false <-> k <> "__proto__" /\ k <> "hasOwnProperty".
Proof.
  unfold reserved. rewrite orb_false_iff, !String.eqb_neq. tauto.
Qed.

(** While no reserved name is assigned to, [results] behaves as a
    dictionary: [Object.prototype] stays on its chain and nothing hides
    [hasOwnProperty]. *)
Lemma assign_ordinary (r : Results) (k : string) (v : option Quote) :
  reserved k = false ->
  inherits r = true /\ obj_get (own r) "hasOwnProperty" = None ->
  (inherits (assign r k v) = true
   /\ obj_get (own (assign r k v)) "hasOwnProperty" = None)
  /\ forall t, obj_get (own (assign r k v)) t
               = if String.eqb k t then Some v else obj_get (own r) t.
Proof.
  intros Hk [I H]. apply reserved_false in Hk. destruct Hk as [N1 N2].
  split; [split |].
  - rewrite assign_inherits by tauto. exact I.
  - rewrite assign_other by assumption. exact H.
  - intros t. destruct (String.eqb k t) eqn:E.
    + apply String.eqb_eq in E. subst t. now apply assign_same.
    + apply String.eqb_neq in E. now apply assign_other.
Qed.

Lemma process_quote_ordinary (r : Results) (y : YahooQuote) :
  (forall s, y_symbol y = Some s -> reserved s = false) ->
  inherits r = true /\ obj_get (own r) "hasOwnProperty" = None ->
  (inherits (process_quote r y) = true
   /\ obj_get (own (process_quote r y)) "hasOwnProperty" = None)
  /\ forall t, obj_get (own (process_quote r y)) t
               = if bears_symbol t y then Some (Some (quote_from y t))
                 else obj_get (own r) t.
Proof.
  intros Hy P. unfold process_quote, bears_symbol.
  destruct (y_symbol y) as [s |]; [| tauto].
  destruct (String.eqb s "") eqn:E; simpl.
  - split; [exact P |]. intros t. now rewrite andb_false_r.
  - destruct (assign_ordinary r s (Some (quote_from y s)) (Hy s eq_refl) P)
      as [P' G].
    split; [exact P' |]. intros t. rewrite andb_true_r.
    unfold quote_from in G. rewrite G.
    destruct (String.eqb s t) eqn:E'; [| reflexivity].
    apply String.eqb_eq in E'. now subst t.
Qed.

Lemma process_quotes_ordinary (ys : list YahooQuote) (r : Results) :
  (forall y s, In y ys -> y_symbol y = Some s -> reserved s = false) ->
  inherits r = true /\ obj_get (own r) "hasOwnProperty" = None ->
  (inherits (fold_left process_quote ys r) = true
   /\ obj_get (own (fold_left process_quote ys r)) "hasOwnProperty" = None)
  /\ forall t, obj_get (own (fold_left process_quote ys r)) t
               = match last_quote_for t ys with
                 | Some y => Some (Some (quote_from y t))
                 | None => obj_get (own r) t
                 end.
Proof.
  unfold last_quote_for.
  induction ys as [| y ys IH] using rev_ind; intros Hys P; [tauto |].
  rewrite fold_left_app. simpl.
  destruct IH as [P' G]; [| exact P |].
  { intros y' s Hin. apply Hys. apply in_or_app. now left. }
  destruct (process_quote_ordinary (fold_left process_quote ys r) y) as [P'' G'];
    [| exact P' |].
  { intros s. apply Hys. apply in_or_app. right. now left. }
  split; [exact P'' |].
  intros t. rewrite G', rev_app_distr. simpl.
  destruct (bears_symbol t y); [reflexivity | apply G].
Qed.

(** On such an object the final check completes, and adds the requested
    symbols that are missing. *)
Lemma final_check_ordinary (tickers : list string) (r : Results) :
  (forall t, In t tickers -> reserved t = false) ->
  inherits r = true /\ obj_get (own r) "hasOwnProperty" = None ->
  fst (final_check tickers r) = Ret tt
  /\ forall t, obj_get (own (snd (final_check tickers r))) t
               = match obj_get (own r) t with
                 | Some v => Some v
                 | None => if in_dec string_dec t tickers then Some None
                           else None
                 end.
Proof.
  revert r. induction tickers as [| a tickers IH]; intros r Ht P; simpl.
  - split; [reflexivity |]. intros t. now destruct (obj_get (own r) t).
  - assert (Ha : reserved a = false) by (apply Ht; now left).
    assert (Ht' : forall t, In t tickers -> reserved t = false).
    { intros t H. apply Ht. now right. }
    unfold mark_missing, call_hasOwnProperty.
    destruct P as [I H]. rewrite H, I. unfold hasOwnProperty.
    destruct (obj_get (own r) a) as [va |] eqn:Ea.
    + destruct (IH r Ht' (conj I H)) as [R G]. split; [exact R |].
      intros t. rewrite G. destruct (obj_get (own r) t) eqn:Et; [reflexivity |].
      destruct (string_dec a t) as [-> | N]; [congruence |].
      destruct (in_dec string_dec t tickers); reflexivity.
    + destruct (assign_ordinary r a None Ha (conj I H)) as [P' G'].
      destruct (IH (assign r a None) Ht' P') as [R G]. split; [exact R |].
      intros t. rewrite G, G'.
      destruct (string_dec a t) as [-> | N].
      * rewrite String.eqb_refl, Ea. reflexivity.
      * rewrite (proj2 (String.eqb_neq a t) N).
        destruct (obj_get (own r) t); [reflexivity |].
        destruct (in_dec string_dec t tickers); reflexivity.
Qed.

(** X13: what the adapter returns when the upstream answers and no symbol,
    requested or borne by a quote of the answer, is [__proto__] or
    [hasOwnProperty]: every symbol for which the answer holds a quote
    bearing exactly that (non-empty) symbol is mapped to the quote built
    from the last such quote, whether the symbol was requested or not; a
    requested symbol without such a quote is mapped to null; no other
    symbol is a key. *)
Theorem fetch_result_characterised (tickers : list string) (env : Env)
    (st : State) (resp : YahooResponse) :
  tickers <> [] ->
  yahoo env tickers = Ret resp ->
  ordinary_symbols tickers resp ->
  exists results,
    fetchStockData tickers env st = (Ret results, asked st tickers)
    /\ forall t,
         obj_get results t
         = match last_quote_for t (quotes_of resp) with
           | Some y => Some (Some (quote_from y t))
           | None => if in_dec string_dec t tickers then Some None else None
           end.
Proof.
  intros N Hy [Ht Hq]. rewrite fetchStockData_run by assumption. rewrite Hy.
  eexists. split; [reflexivity |].
  intros t. unfold mapping_of, results_of.
  destruct (process_quotes_ordinary (quotes_of resp) empty_object Hq)
    as [P G]; [split; reflexivity |].
  destruct (final_check_ordinary tickers _ Ht P) as [R F].
  destruct (final_check tickers _) as [o r]. cbn [fst snd] in R, F.
  subst o. rewrite F, G. simpl.
  now destruct (last_quote_for t (quotes_of resp)).
Qed.

Lemma fetch_result_characterised_witness :
  exists results,
    fetchStockData ["AAPL"; "MSFT"] sample_env sample_state
    = (Ret results, asked sample_state ["AAPL"; "MSFT"])
    /\ forall t,
         obj_get results t
         = match last_quote_for t [sample_yahoo_quote] with
           | Some y => Some (Some (quote_from y t))
           | None => if in_dec string_dec t ["AAPL"; "MSFT"] then Some None
                     else None
           end.
Proof.
  apply (fetch_result_characterised ["AAPL"; "MSFT"] sample_env sample_state
           (YArray [Some sample_yahoo_quote])).
  - discriminate.
  - reflexivity.
  - split.
    + intros t [<- | [<- | []]]; reflexivity.
    + intros y s [<- | []] [= <-]. reflexivity.
Defined.

(** X14: the timestamp of a quote is a date exactly when the upstream gave
    a valid Date object, kept as it is, or a finite number other than 0,
    read as seconds since the epoch and within the range of a Date once
    converted to milliseconds; in every other case (no value, Invalid Date,
    NaN, 0, an infinity, a string) it is null. *)
Theorem timestamp_of_cases (marketTime : MarketTime) (d : Date) :
  timestamp_of marketTime = Some d
  <-> (exists ms, marketTime = MTDate (Some ms) /\ d = MkDate ms)
      \/ (exists n, marketTime = MTValue (VNum n) /\ n <> 0
                    /\ Z.abs (n * 1000) <= 8640000000000000
                    /\ d = MkDate (n * 1000)).
Proof.
  split.
  - destruct marketTime as [[ms |] | v]; simpl.
    + intros [= <-]. left. now exists ms.
    + discriminate.
    + destruct v as [| | b | n | | neg | s | items |]; simpl;
        rewrite ?andb_false_r; try discriminate.
      destruct (Z.eqb_spec n 0); simpl; [discriminate |].
      unfold date_of_ms. destruct (Z.leb_spec (Z.abs (n * 1000)) 8640000000000000);
        [| discriminate].
      intros [= <-]. right. exists n. tauto.
  - intros [(ms & -> & ->) | (n & -> & N & B & ->)]; [reflexivity |].
    simpl. destruct (Z.eqb_spec n 0); [contradiction |]. simpl.
    unfold date_of_ms. destruct (Z.leb_spec (Z.abs (n * 1000)) 8640000000000000);
      [reflexivity | lia].
Qed.

(* ===================================================================== *)
(** ** More on the search endpoint *)
(* ===================================================================== *)

Lemma upper_ascii_idem (c : ascii) : upper_ascii (upper_ascii c) = upper_ascii c.
Proof.
  destruct c as [[] [] [] [] [] [] [] []]; reflexivity.
Qed.

(** The upper-casing of ASCII strings, used in the examples, is idempotent. *)
Lemma toUpperCase_idem (s : string) :
  JS.toUpperCase (JS.toUpperCase s) = JS.toUpperCase s.
Proof.
  induction s as [| c s IH]; simpl; [reflexivity |].
  now rewrite upper_ascii_idem, IH.
Qed.

Section MoreSearch.

(** The upper-casing and the [length] of the runtime. *)
Variable toUpperCase : string -> string.
Variable str_length : string -> nat.

(** Upper-casing what is in upper case already changes nothing. *)
Hypothesis toUpperCase_idempotent :
  forall s, toUpperCase (toUpperCase s) = toUpperCase s.

(** The symbol test of [searchStock], as a proposition. *)
Lemma bad_symbol_test (p : string) :
  (String.eqb (toUpperCase p) "" || (20 <? str_length (toUpperCase p))%nat)%bool
  = true <-> bad_symbol toUpperCase str_length (Some p).
Proof.
  unfold bad_symbol. rewrite orb_true_iff, String.eqb_eq, Nat.ltb_lt. tauto.
Qed.

(** A search for an accepted symbol: the cache first, then the adapter. *)
Lemma searchStock_run (p : string) (env : Env) (st : State) :
  ~ bad_symbol toUpperCase str_length (Some p) ->
  searchStock toUpperCase str_length (Some p) env st
  = match fst (getCachedStockData (toUpperCase p) env st) with
    | Ret (Some data) =>
        (Ret (MkResponse 200 (JsonCached (toUpperCase p) data)), st)
    | _ =>
        (Ret match obj_get (mapping_of [toUpperCase p]
                              (yahoo env [toUpperCase p])) (toUpperCase p) with
             | Some (Some data) =>
                 MkResponse 200 (JsonFresh (toUpperCase p) data)
             | _ =>
                 MkResponse 404
                   (JsonError ("Data not found for ticker: " +:+ toUpperCase p))
             end,
         asked st [toUpperCase p])
    end.
Proof.
  intros Hok. unfold searchStock. cbn [option_map].
  destruct (_ || _)%bool eqn:B.
  { apply bad_symbol_test in B. contradiction. }
  unfold try_catch, bind. rewrite getCachedStockData_run. cbn [fst].
  destruct (if redis_up env then _ else _) as [cached |]; [reflexivity |].
  rewrite fetchStockData_run by discriminate.
  destruct (obj_get _ _) as [[q |] |]; reflexivity.
Qed.

Lemma searchStock_bad (param : option string) (env : Env) (st : State) :
  bad_symbol toUpperCase str_length param ->
  searchStock toUpperCase str_length param env st
  = (Ret (MkResponse 400 (JsonError "Invalid ticker symbol")), st).
Proof.
  intros Hbad. unfold searchStock. destruct param as [p |]; [| reflexivity].
  cbn [option_map]. apply bad_symbol_test in Hbad. now rewrite Hbad.
Qed.

Lemma bad_symbol_dec (param : option string) :
  bad_symbol toUpperCase str_length param
  \/ exists p, param = Some p /\ ~ bad_symbol toUpperCase str_length (Some p).
Proof.
  destruct param as [p |]; [| now left].
  destruct (String.eqb (toUpperCase p) ""
            || (20 <? str_length (toUpperCase p))%nat)%bool eqn:B.
  - left. now apply bad_symbol_test.
  - right. exists p. split; [reflexivity |].
    intros H. apply bad_symbol_test in H. congruence.
Qed.

(** X15: a search always answers, with status 200, 400 or 404 and never
    500, whatever the store and the upstream do; the status is 400 exactly
    when the symbol is missing or, once in upper case, empty or of a length
    above 20, and such a request reads no cache and calls no upstream: the
    state is as before.  Upper-casing and length are those of the runtime,
    whatever they are. *)
Theorem search_status (param : option string) (env : Env) (st : State) :
  exists resp,
    fst (searchStock toUpperCase str_length param env st) = Ret resp
    /\ (status resp = 200 \/ status resp = 400 \/ status resp = 404)
    /\ (status resp = 400 <-> bad_symbol toUpperCase str_length param)
    /\ (bad_symbol toUpperCase str_length param ->
        snd (searchStock toUpperCase str_length param env st) = st).
Proof.
  destruct (bad_symbol_dec param) as [Hbad | (p & -> & Hok)].
  - rewrite (searchStock_bad param env st Hbad).
    eexists. split; [reflexivity |]. simpl. tauto.
  - rewrite (searchStock_run p env st Hok).
    assert (F : forall resp : Response,
               status resp = 200 \/ status resp = 404 ->
               (status resp = 200 \/ status resp = 400 \/ status resp = 404)
               /\ (status resp = 400
                   <-> bad_symbol toUpperCase str_length (Some p))).
    { intros resp H. split; [tauto |].
      split; [intros E; destruct H as [H | H]; rewrite E in H; discriminate H
             | tauto]. }
    destruct (fst (getCachedStockData (toUpperCase p) env st))
      as [[cached |] | e]; [| destruct (obj_get _ _) as [[q |] |] ..];
      (eexists; split; [reflexivity |]);
      match goal with
      | |- (status ?r = _ \/ _) /\ _ =>
          destruct (F r) as [F1 F2]; [simpl; tauto |]
      end;
      (split; [exact F1 | split; [exact F2 | tauto]]).
Qed.

(** X16: the search is cache-first: when the cache holds an entry for the
    symbol that has not expired, the answer is that entry, with status 200,
    and the upstream is not called. *)
Theorem search_cache_hit_skips_upstream (p : string) (env : Env) (st : State)
    (data : CachedQuote) :
  ~ bad_symbol toUpperCase str_length (Some p) ->
  fst (getCachedStockData (toUpperCase p) env st) = Ret (Some data) ->
  searchStock toUpperCase str_length (Some p) env st
  = (Ret (MkResponse 200 (JsonCached (toUpperCase p) data)), st).
Proof.
  intros Hok Hhit. rewrite (searchStock_run p env st Hok). now rewrite Hhit.
Qed.

(** X17: on a cache miss (the store not answering included), a search for
    which the adapter has no quote, be it that the upstream call failed or
    that the symbol is unknown, is answered with status 404 and the
    message naming the symbol, after one request to the upstream. *)
Theorem search_without_quote_is_404 (p : string) (env : Env) (st : State) :
  ~ bad_symbol toUpperCase str_length (Some p) ->
  fst (getCachedStockData (toUpperCase p) env st) = Ret None ->
  (forall q, obj_get (mapping_of [toUpperCase p] (yahoo env [toUpperCase p]))
                     (toUpperCase p) <> Some (Some q)) ->
  searchStock toUpperCase str_length (Some p) env st
  = (Ret (MkResponse 404
            (JsonError ("Data not found for ticker: " +:+ toUpperCase p))),
     asked st [toUpperCase p]).
Proof.
  intros Hok Hmiss Hnone. rewrite (searchStock_run p env st Hok), Hmiss.
  destruct (obj_get _ _) as [[q |] |] eqn:E; try reflexivity.
  exfalso. now apply (Hnone q).
Qed.

(** X18: the search does not depend on the letter case of the symbol it is
    given: a symbol and its upper-case form get the same answer and leave
    the same state. *)
Theorem search_case_insensitive (p : string) (env : Env) (st : State) :
  searchStock toUpperCase str_length (Some p) env st
  = searchStock toUpperCase str_length (Some (toUpperCase p)) env st.
Proof.
  unfold searchStock. cbn [option_map]. now rewrite toUpperCase_idempotent.
Qed.

End MoreSearch.

Lemma search_cache_hit_skips_upstream_witness :
  let st := snd (runPeriodicFetch sample_env sample_state) in
  searchStock JS.toUpperCase String.length (Some "aapl")
    (sample_env_at 1100 true) st
  = (Ret (MkResponse 200 (JsonCached "AAPL" (as_cached sample_quote))), st).
Proof.
  intros st.
  apply (search_cache_hit_skips_upstream JS.toUpperCase String.length "aapl"
           (sample_env_at 1100 true) st (as_cached sample_quote)).
  - intros [H | H]; [discriminate H | simpl in H; lia].
  - reflexivity.
Defined.

Lemma search_without_quote_is_404_witness :
  searchStock JS.toUpperCase String.length (Some "msft")
    sample_env_upstream_down sample_state
  = (Ret (MkResponse 404 (JsonError "Data not found for ticker: MSFT")),
     asked sample_state ["MSFT"]).
Proof.
  apply (search_without_quote_is_404 JS.toUpperCase String.length "msft"
           sample_env_upstream_down sample_state).
  - intros [H | H]; [discriminate H | simpl in H; lia].
  - reflexivity.
  - intros q. discriminate.
Defined.

Lemma search_case_insensitive_witness :
  searchStock JS.toUpperCase String.length (Some "aapl") sample_env
    sample_state
  = searchStock JS.toUpperCase String.length (Some "AAPL") sample_env
      sample_state.
Proof.
  apply (search_case_insensitive JS.toUpperCase String.length toUpperCase_idem
           "aapl" sample_env sample_state).
Defined.

(* ===================================================================== *)
(** ** The watchlist handlers and the middleware of the stock routes *)
(* ===================================================================== *)

Section Watchlist.

(** The upper-casing and the [length] of the runtime. *)
Variable toUpperCase : string -> string.
Variable str_length : string -> nat.

Lemma In_validTickers (items : list value) (t : string) :
  In t (validTickers toUpperCase str_length items)
  <-> accepted_ticker toUpperCase str_length items t.
Proof.
  unfold validTickers, accepted_ticker.
  rewrite <- list_elem_of_In, list_elem_of_omap. split.
  - intros (v & Hv & E). apply list_elem_of_In in Hv.
    destruct v; try discriminate E. simpl in E.
    destruct (0 <? str_length s)%nat eqn:L1; [| discriminate E].
    destruct (str_length s <? 20)%nat eqn:L2; [| discriminate E].
    injection E as <-. exists s.
    apply Nat.ltb_lt in L1, L2. repeat split; assumption.
  - intros (s & Hin & [L1 L2] & ->). exists (VStr s).
    split; [now apply list_elem_of_In |]. simpl.
    apply Nat.ltb_lt in L1, L2. now rewrite L1, L2.
Qed.

(** The requests [addToWatchlist] makes to the database: none, or one
    creation of rows for the user of the request. *)
Lemma addToWatchlist_calls (dbs : Database) (req_user : option Z)
    (tickers : value) :
  snd (addToWatchlist toUpperCase str_length dbs req_user tickers) = []
  \/ exists userId items,
       req_user = Some userId /\ userId <> 0 /\ tickers = VArr items
       /\ validTickers toUpperCase str_length items <> []
       /\ snd (addToWatchlist toUpperCase str_length dbs req_user tickers)
          = [CreateMany (map (fun t => (userId, t))
                             (validTickers toUpperCase str_length items))].
Proof.
  unfold addToWatchlist, user_id.
  destruct req_user as [userId |]; [| now left].
  destruct (Z.eqb_spec userId 0) as [E | N]; [now left |].
  destruct tickers as [| | | | | | | items |]; try (now left).
  destruct items as [| first others]; [now left |].
  destruct (validTickers toUpperCase str_length (first :: others))
    as [| v l] eqn:Ev; [now left |].
  change (length (v :: l) =? 0)%nat with false. cbv iota.
  right. exists userId, (first :: others). rewrite Ev.
  split; [reflexivity |]. split; [assumption |]. split; [reflexivity |].
  split; [discriminate |].
  destruct (createMany dbs _) as [[c | m] | count]; try reflexivity.
  destruct (String.eqb c "P2003"); reflexivity.
Qed.

(** The requests [removeFromWatchlist] makes to the database: none, or one
    deletion restricted to the user of the request. *)
Lemma removeFromWatchlist_calls (dbs : Database) (req_user : option Z)
    (tickers : value) :
  snd (removeFromWatchlist toUpperCase str_length dbs req_user tickers) = []
  \/ exists userId items,
       req_user = Some userId /\ userId <> 0 /\ tickers = VArr items
       /\ validTickers toUpperCase str_length items <> []
       /\ snd (removeFromWatchlist toUpperCase str_length dbs req_user tickers)
          = [DeleteMany userId (validTickers toUpperCase str_length items)].
Proof.
  unfold removeFromWatchlist, user_id.
  destruct req_user as [userId |]; [| now left].
  destruct (Z.eqb_spec userId 0) as [E | N]; [now left |].
  destruct tickers as [| | | | | | | items |]; try (now left).
  destruct items as [| first others]; [now left |].
  destruct (validTickers toUpperCase str_length (first :: others))
    as [| v l] eqn:Ev; [now left |].
  change (length (v :: l) =? 0)%nat with false. cbv iota.
  right. exists userId, (first :: others). rewrite Ev.
  split; [reflexivity |]. split; [assumption |]. split; [reflexivity |].
  split; [discriminate |].
  destruct (deleteMany dbs _ _); reflexivity.
Qed.

(** X19: the watchlist handlers write for the authenticated user only, and
    validated symbols only: whatever the request, [addToWatchlist] makes at
    most one request to the database, a creation of rows that all carry the
    user id of the request and a ticker that is the upper-case form of a
    string entry of the request whose length is between 1 and 19;
    [removeFromWatchlist] likewise makes at most one request, a deletion
    restricted to that user id and to such tickers; without a user id (or
    with user id 0) neither makes any request.  Upper-casing and length are
    those of the runtime, whatever they are. *)
Theorem watchlist_writes_are_validated (dbs : Database) (req_user : option Z)
    (tickers : value) :
  (forall call,
     In call (snd (addToWatchlist toUpperCase str_length dbs req_user
                     tickers)) ->
     exists userId items,
       req_user = Some userId /\ userId <> 0 /\ tickers = VArr items
       /\ call = CreateMany (map (fun t => (userId, t))
                                 (validTickers toUpperCase str_length items))
       /\ snd (addToWatchlist toUpperCase str_length dbs req_user tickers)
          = [call]
       /\ validTickers toUpperCase str_length items <> []
       /\ forall t, In t (validTickers toUpperCase str_length items)
                    <-> accepted_ticker toUpperCase str_length items t)
  /\ (forall call,
     In call (snd (removeFromWatchlist toUpperCase str_length dbs req_user
                     tickers)) ->
     exists userId items,
       req_user = Some userId /\ userId <> 0 /\ tickers = VArr items
       /\ call = DeleteMany userId (validTickers toUpperCase str_length items)
       /\ snd (removeFromWatchlist toUpperCase str_length dbs req_user
                 tickers)
          = [call]
       /\ validTickers toUpperCase str_length items <> []
       /\ forall t, In t (validTickers toUpperCase str_length items)
                    <-> accepted_ticker toUpperCase str_length items t).
Proof.
  split; intros call Hin.
  - destruct (addToWatchlist_calls dbs req_user tickers)
      as [E | (userId & items & Hu & N & Ht & Hv & E)].
    + rewrite E in Hin. destruct Hin.
    + rewrite E in Hin. destruct Hin as [<- | []].
      exists userId, items. repeat (split; [assumption || reflexivity |]).
      intros t. apply In_validTickers.
  - destruct (removeFromWatchlist_calls dbs req_user tickers)
      as [E | (userId & items & Hu & N & Ht & Hv & E)].
    + rewrite E in Hin. destruct Hin.
    + rewrite E in Hin. destruct Hin as [<- | []].
      exists userId, items. repeat (split; [assumption || reflexivity |]).
      intros t. apply In_validTickers.
Qed.

End Watchlist.

Lemma split_on_nonempty (sep : ascii) (s : string) : split_on sep s <> [].
Proof.
  destruct s as [| c r]; simpl; [discriminate |].
  destruct (Ascii.eqb c sep); [discriminate |].
  destruct (split_on sep r); discriminate.
Qed.

(** No part of a split holds the separator. *)
Lemma split_on_parts (sep : ascii) (s x : string) :
  In x (split_on sep s) -> has_char sep x = false.
Proof.
  revert x. induction s as [| c r IH]; intros x; simpl.
  - intros [<- | []]. reflexivity.
  - destruct (Ascii.eqb c sep) eqn:E.
    + intros [<- | H]; [reflexivity | now apply IH].
    + destruct (split_on sep r) as [| h t] eqn:S.
      * intros [<- | []]. simpl. now rewrite E.
      * intros [<- | H].
        -- simpl. rewrite E. apply IH. now left.
        -- apply IH. now right.
Qed.

(** A string without the separator is the first part of what follows it. *)
Lemma split_on_first (sep : ascii) (a b : string) :
  has_char sep a = false ->
  split_on sep (a +:+ String sep b) = a :: split_on sep b.
Proof.
  induction a as [| c a IH]; simpl; intros H.
  - now rewrite Ascii.eqb_refl.
  - apply orb_false_iff in H. destruct H as [E H].
    rewrite E. now rewrite (IH H).
Qed.

Lemma split_on_whole (sep : ascii) (a : string) :
  has_char sep a = false -> split_on sep a = [a].
Proof.
  induction a as [| c a IH]; simpl; intros H; [reflexivity |].
  apply orb_false_iff in H. destruct H as [E H].
  rewrite E. now rewrite (IH H).
Qed.

(** X20: the token the middleware reads from an Authorization header is
    the text between the first and the second space: for [Bearer] followed
    by a space and a token without space, possibly followed by a space and
    anything, it is that token; and whatever the header, the token read
    holds no space, a header that does not start with [Bearer] and a space
    giving none. *)
Theorem bearer_token_roundtrip (token : string) :
  has_char " " token = false ->
  bearer_token (Some ("Bearer " +:+ token)) = Some token
  /\ (forall rest,
        bearer_token (Some ("Bearer " +:+ token +:+ " " +:+ rest)) = Some token)
  /\ (forall header read,
        bearer_token (Some header) = Some read ->
        has_char " " read = false /\ String.prefix "Bearer " header = true).
Proof.
  intros H.
  assert (C : forall x,
             (negb (String.eqb ("Bearer " +:+ x) "")
              && String.prefix "Bearer " ("Bearer " +:+ x))%bool = true)
    by (intros x; destruct x; reflexivity).
  split; [| split].
  - unfold bearer_token. rewrite C.
    change ("Bearer " +:+ token) with ("Bearer" +:+ String " " token).
    rewrite split_on_first by reflexivity.
    rewrite split_on_whole by assumption. reflexivity.
  - intros rest. unfold bearer_token. rewrite C.
    change ("Bearer " +:+ token +:+ " " +:+ rest)
      with ("Bearer" +:+ String " " (token +:+ String " " rest)).
    rewrite split_on_first by reflexivity.
    rewrite split_on_first by assumption. reflexivity.
  - intros header read. unfold bearer_token.
    destruct (negb (String.eqb header "")); [| discriminate].
    destruct (String.prefix "Bearer " header); [| discriminate].
    cbn [andb]. intros E. split; [| reflexivity].
    apply (split_on_parts " " header). now apply nth_error_In in E.
Qed.

Lemma bearer_token_roundtrip_witness :
  bearer_token (Some "Bearer abc.def.ghi") = Some "abc.def.ghi"
  /\ bearer_token (Some "Bearer abc.def.ghi trailing words") = Some "abc.def.ghi".
Proof.
  destruct (bearer_token_roundtrip "abc.def.ghi" eq_refl) as (H1 & H2 & _).
  split; [exact H1 | exact (H2 "trailing words")].
Defined.

(** A request the middleware lets through passed as the user it is given;
    what the middleware answers itself has status 401 or 500. *)
Lemma authMiddleware_sound (jwt_verify : string -> string -> Thrown + Z)
    (JWT_SECRET : option string) (authHeader : option string) :
  (forall uid,
     authMiddleware jwt_verify JWT_SECRET authHeader = NextHandler uid ->
     passes_as jwt_verify JWT_SECRET authHeader uid)
  /\ (forall status error,
        authMiddleware jwt_verify JWT_SECRET authHeader = Answer status error ->
        status = 401 \/ status = 500).
Proof.
  unfold authMiddleware, passes_as.
  destruct (bearer_token authHeader) as [token |];
    [| split; [discriminate | intros ? ? [= <- _]; now left]].
  destruct (String.eqb token "") eqn:Et;
    [split; [discriminate | intros ? ? [= <- _]; now left] |].
  apply String.eqb_neq in Et.
  destruct JWT_SECRET as [secret |];
    [| split; [discriminate | intros ? ? [= <- _]; now right]].
  destruct (String.eqb secret "") eqn:Es;
    [split; [discriminate | intros ? ? [= <- _]; now right] |].
  apply String.eqb_neq in Es.
  destruct (jwt_verify token secret) as [[[] message | message] | userId] eqn:V;
    try (split; [discriminate | intros ? ? [= <- _]; tauto]).
  split; [| discriminate].
  intros uid [= <-]. exists token, secret. tauto.
Qed.

(** X21: a request passes the middleware of the stock routes exactly when
    its Authorization header carries a non-empty bearer token, a signing
    secret is configured and the token verifies with it; [req.user.id] is
    then the user id of the token; every other request is answered by the
    middleware itself, with status 401 or 500, and never let through as
    anonymous. *)
Theorem rest_auth_passes_iff (jwt_verify : string -> string -> Thrown + Z)
    (JWT_SECRET : option string) (authHeader : option string) :
  (forall uid,
     authMiddleware jwt_verify JWT_SECRET authHeader = NextHandler uid
     <-> passes_as jwt_verify JWT_SECRET authHeader uid)
  /\ (forall status error,
        authMiddleware jwt_verify JWT_SECRET authHeader = Answer status error ->
        status = 401 \/ status = 500).
Proof.
  destruct (authMiddleware_sound jwt_verify JWT_SECRET authHeader)
    as [Hnext Hanswer].
  split; [| exact Hanswer].
  intros uid. split; [apply Hnext |].
  intros (token & secret & Ht & Nt & Hs & Ns & Hv).
  unfold authMiddleware. rewrite Ht, Hs.
  apply String.eqb_neq in Nt, Ns. now rewrite Nt, Ns, Hv.
Qed.

Section ProtectedRoutes.

(** The upper-casing and the [length] of the runtime. *)
Variable toUpperCase : string -> string.
Variable str_length : string -> nat.

(** X22: a request that does not pass the middleware touches nothing
    behind it: its search reads no cache and calls no upstream, the state
    being as before, and its watchlist writes make no request to the
    database; the answer is the middleware's, with status 401 or 500. *)
Theorem unauthenticated_request_touches_nothing
    (jwt_verify : string -> string -> Thrown + Z) (JWT_SECRET : option string)
    (authHeader : option string) (param : option string) (tickers : value)
    (dbs : Database) (env : Env) (st : State) :
  (forall uid, ~ passes_as jwt_verify JWT_SECRET authHeader uid) ->
  exists status error,
    (status = 401 \/ status = 500)
    /\ protected_search jwt_verify JWT_SECRET toUpperCase str_length
         authHeader param env st
       = (Ret (MkResponse status (JsonError error)), st)
    /\ protected_add jwt_verify JWT_SECRET toUpperCase str_length dbs
         authHeader tickers
       = (MkReply status (JsonFailure error), [])
    /\ protected_remove jwt_verify JWT_SECRET toUpperCase str_length dbs
         authHeader tickers
       = (MkReply status (JsonFailure error), []).
Proof.
  intros Hno.
  destruct (authMiddleware_sound jwt_verify JWT_SECRET authHeader)
    as [Hpass Hans].
  unfold protected_search, protected_add, protected_remove.
  destruct (authMiddleware jwt_verify JWT_SECRET authHeader)
    as [uid | status error] eqn:A.
  - exfalso. apply (Hno uid). now apply Hpass.
  - exists status, error. split; [now apply (Hans status error) |].
    repeat split.
Qed.

(** X23: a request can write only to the watchlist of the user its token
    was issued for: every request that the protected add and remove routes
    make to the database comes from a request that passed the middleware,
    and creates rows, or deletes rows, under the user id of the verified
    token and no other. *)
Theorem protected_write_uses_token_identity
    (jwt_verify : string -> string -> Thrown + Z) (JWT_SECRET : option string)
    (dbs : Database) (authHeader : option string) (tickers : value) :
  (forall call,
     In call (snd (protected_add jwt_verify JWT_SECRET toUpperCase str_length
                     dbs authHeader tickers)) ->
     exists uid rows,
       passes_as jwt_verify JWT_SECRET authHeader uid
       /\ call = CreateMany rows
       /\ forall row, In row rows -> fst row = uid)
  /\ (forall call,
     In call (snd (protected_remove jwt_verify JWT_SECRET toUpperCase
                     str_length dbs authHeader tickers)) ->
     exists uid symbols,
       passes_as jwt_verify JWT_SECRET authHeader uid
       /\ call = DeleteMany uid symbols).
Proof.
  destruct (authMiddleware_sound jwt_verify JWT_SECRET authHeader)
    as [Hpass _].
  unfold protected_add, protected_remove.
  destruct (authMiddleware jwt_verify JWT_SECRET authHeader)
    as [uid | status error] eqn:A; [| split; intros call []].
  assert (P : passes_as jwt_verify JWT_SECRET authHeader uid)
    by now apply Hpass.
  split; intros call Hin.
  - destruct (addToWatchlist_calls toUpperCase str_length dbs (Some uid)
                tickers)
      as [E | (u & items & [= <-] & _ & _ & _ & E)];
      rewrite E in Hin; [destruct Hin | destruct Hin as [<- | []]].
    exists uid. eexists. split; [exact P |]. split; [reflexivity |].
    intros row Hrow. apply in_map_iff in Hrow.
    destruct Hrow as (t & <- & _). reflexivity.
  - destruct (removeFromWatchlist_calls toUpperCase str_length dbs (Some uid)
                tickers)
      as [E | (u & items & [= <-] & _ & _ & _ & E)];
      rewrite E in Hin; [destruct Hin | destruct Hin as [<- | []]].
    exists uid. eexists. split; [exact P | reflexivity].
Qed.

End ProtectedRoutes.

Lemma unauthenticated_request_touches_nothing_witness :
  exists status error,
    (status = 401 \/ status = 500)
    /\ protected_search sample_rest_verify (Some "s3cret") JS.toUpperCase
         String.length (Some "Bearer old-token") (Some "aapl") sample_env
         sample_state
       = (Ret (MkResponse status (JsonError error)), sample_state)
    /\ protected_add sample_rest_verify (Some "s3cret") JS.toUpperCase
         String.length sample_database (Some "Bearer old-token")
         (VArr [VStr "aapl"])
       = (MkReply status (JsonFailure error), [])
    /\ protected_remove sample_rest_verify (Some "s3cret") JS.toUpperCase
         String.length sample_database (Some "Bearer old-token")
         (VArr [VStr "aapl"])
       = (MkReply status (JsonFailure error), []).
Proof.
  apply (unauthenticated_request_touches_nothing JS.toUpperCase String.length
           sample_rest_verify (Some "s3cret") (Some "Bearer old-token")
           (Some "aapl") (VArr [VStr "aapl"]) sample_database sample_env
           sample_state).
  intros uid (token & secret & Ht & _ & Hs & _ & Hv).
  injection Ht as <-. injection Hs as <-. discriminate Hv.
Defined.
